(** * dcgrants: the Merkle payout contract and the grant data layer

    A shallow embedding of

    - [contracts/contracts/MerkleGrantRoundPayout.sol]: the claimed bitmap,
      [hasClaimed], [_setClaimed], [claim] and [batchClaim];
    - the grant data layer of the frontend: [getAllGrants], the
      [areMetaPtrsEqual] comparison of [grantListener], and
      [getApprovedGrants].

    Solidity's [uint256] is a [Z] with the wrap-around written out, the
    [mapping(uint256 => uint256)] is a [gmap Z Z] whose missing keys read as
    zero, a reverting call is a value of [result], and a JavaScript object
    used as a dictionary is a [gmap]. *)

From Stdlib Require Import ZArith Lia Bool List Ascii.
From stdpp Require Import base option list gmap strings sorting.

Local Open Scope Z_scope.

(** ** Outcome of a call: a value, or a revert / a thrown exception *)

Inductive result (A : Type) : Type :=
| Ok (a : A)
| Revert (reason : string).
Arguments Ok {A} a.
Arguments Revert {A} reason.

Definition bind {A B : Type} (r : result A) (k : A -> result B) : result B :=
  match r with
  | Ok a => k a
  | Revert reason => Revert reason
  end.

Notation "'let*' x ':=' e 'in' k" :=
  (bind e (fun x => k))
  (at level 10, x name, e at level 200, k at level 200).

(** Solidity's [require(condition, reason)]. *)
Definition require (condition : bool) (reason : string) : result unit :=
  if condition then Ok tt else Revert reason.

Definition succeeds {A : Type} (r : result A) : Prop := exists a, r = Ok a.

Definition reverts {A : Type} (r : result A) : Prop := exists reason, r = Revert reason.

(** The state a transaction leaves behind: the EVM discards every change of
    a call that reverts. *)
Definition commit {S : Type} (tx : S -> result S) (st : S) : S :=
  match tx st with
  | Ok st' => st'
  | Revert _ => st
  end.

(** ** MerkleGrantRoundPayout.sol *)

Module Payout.

Definition address : Type := Z.
Definition bytes32 : Type := Z.

(** [uint256] arithmetic keeps the low 256 bits. *)
Definition uint256 (z : Z) : Z := z mod 2 ^ 256.

(** What the contract is deployed against: the ERC20 token behind [token]
    (its ledger, and the effect of [token.safeTransfer(to, value)] when the
    payout contract is the caller), the EVM's [keccak256] over
    [abi.encodePacked(uint256, address, uint256)], and OpenZeppelin's
    [MerkleProof.verify(proof, root, leaf)].  The token is taken not to call
    back into the payout contract. *)
Class Env : Type := {
  Ledger : Type;
  safeTransfer : Ledger -> address -> Z -> result Ledger;
  keccak256_encodePacked : Z -> address -> Z -> bytes32;
  MerkleProof_verify : list bytes32 -> bytes32 -> bytes32 -> bool
}.

(** [struct Claim] *)
Record Claim : Type := mkClaim {
  index : Z;
  payee : address;
  amount : Z;
  merkleProof : list bytes32
}.

(** [event Claimed(uint256 index, address payee, uint256 amount)] *)
Inductive Event : Type :=
| Claimed (index : Z) (payee : address) (amount : Z).

(** The immutable [merkleRoot], the private [claimedBitMap], the ledger of
    the immutable [token], and the events emitted so far (oldest first). *)
Record ContractState (L : Type) : Type := mkState {
  merkleRoot : bytes32;
  claimedBitMap : gmap Z Z;
  tokenLedger : L;
  events : list Event
}.
Arguments mkState {L} _ _ _ _.
Arguments merkleRoot {L} _.
Arguments claimedBitMap {L} _.
Arguments tokenLedger {L} _.
Arguments events {L} _.

Section Contract.
Context `{env : Env}.

Definition State : Type := ContractState Ledger.

(** [constructor(IERC20 _token, bytes32 _merkleRoot)] *)
Definition constructor (_token : Ledger) (_merkleRoot : bytes32) : State :=
  {| merkleRoot := _merkleRoot; claimedBitMap := ∅;
     tokenLedger := _token; events := [] |}.

(** [claimedBitMap[w]]: a word never written reads as zero. *)
Definition word (m : gmap Z Z) (w : Z) : Z :=
  match m !! w with
  | Some v => v
  | None => 0
  end.

Definition _setClaimed (_index : Z) (st : State) : State :=
  let claimedWordIndex := _index / 256 in
  let claimedBitIndex := _index mod 256 in
  {| merkleRoot := merkleRoot st;
     claimedBitMap :=
       <[claimedWordIndex :=
           Z.lor (word (claimedBitMap st) claimedWordIndex)
                 (uint256 (Z.shiftl 1 claimedBitIndex))]> (claimedBitMap st);
     tokenLedger := tokenLedger st;
     events := events st |}.

Definition hasClaimed (_index : Z) (st : State) : bool :=
  let claimedWordIndex := _index / 256 in
  let claimedBitIndex := _index mod 256 in
  let claimedWord := word (claimedBitMap st) claimedWordIndex in
  let mask := uint256 (Z.shiftl 1 claimedBitIndex) in
  Z.land claimedWord mask =? mask.

Definition claim (_claim : Claim) (st : State) : result State :=
  let _index := index _claim in
  let _payee := payee _claim in
  let _amount := amount _claim in
  let _merkleProof := merkleProof _claim in
  let* _ := require (negb (hasClaimed _index st))
                    "MerkleGrantRoundPayout: Funds already claimed" in
  let node := keccak256_encodePacked _index _payee _amount in
  let* _ := require (MerkleProof_verify _merkleProof (merkleRoot st) node)
                    "MerkleGrantRoundPayout: Invalid proof." in
  let st := _setClaimed _index st in
  let* ledger' := safeTransfer (tokenLedger st) _payee _amount in
  Ok {| merkleRoot := merkleRoot st;
        claimedBitMap := claimedBitMap st;
        tokenLedger := ledger';
        events := events st ++ [Claimed _index _payee _amount] |}.

(** [for (uint256 i = 0; i < _claims.length; i++) claim(_claims[i]);]
    The counter is the [uint256] [i]: the array access is bounds-checked
    and the increment is checked for overflow.  [fuel] bounds the number of
    iterations; [batchClaim] starts the loop with as many as the array has
    elements, which is as many as it can need. *)
Fixpoint batchClaim_loop (fuel : nat) (_claims : list Claim) (i : Z) (st : State)
  : result State :=
  if i <? Z.of_nat (length _claims) then
    match fuel with
    | O => Revert "out of fuel"
    | S fuel' =>
        match _claims !! Z.to_nat i with
        | None => Revert "Panic(0x32)"
        | Some c =>
            let* st := claim c st in
            let* _ := require (i + 1 <? 2 ^ 256) "Panic(0x11)" in
            batchClaim_loop fuel' _claims (i + 1) st
        end
    end
  else Ok st.

Definition batchClaim (_claims : list Claim) (st : State) : result State :=
  batchClaim_loop (length _claims) _claims 0 st.

(** The second [require] of [claim]: the proof verifies the leaf
    [keccak256(abi.encodePacked(index, payee, amount))] against the root. *)
Definition leaf_verifies (c : Claim) (st : State) : bool :=
  MerkleProof_verify (merkleProof c) (merkleRoot st)
    (keccak256_encodePacked (index c) (payee c) (amount c)).

(** The state a successful [claim] of [c] leaves, given the ledger the
    transfer produced: bit set, ledger replaced, event appended. *)
Definition claimed_state (c : Claim) (st : State) (ledger' : Ledger) : State :=
  {| merkleRoot := merkleRoot st;
     claimedBitMap := claimedBitMap (_setClaimed (index c) st);
     tokenLedger := ledger';
     events := events st ++ [Claimed (index c) (payee c) (amount c)] |}.

(** Calling [claim(claims[0])], [claim(claims[1])], ... one after the
    other, each on the state the previous call left; the first revert
    ends the sequence. *)
Fixpoint claim_sequentially (claims : list Claim) (st : State) : result State :=
  match claims with
  | [] => Ok st
  | c :: rest => let* st := claim c st in claim_sequentially rest st
  end.

(** The two state-changing entry points, and a history of transactions:
    a transaction that reverts leaves the state as it found it. *)
Inductive Call : Type :=
| CallClaim (_claim : Claim)
| CallBatchClaim (_claims : list Claim).

Definition call (op : Call) : State -> result State :=
  match op with
  | CallClaim c => claim c
  | CallBatchClaim cs => batchClaim cs
  end.

Definition transact (st : State) (op : Call) : State := commit (call op) st.

Definition run (ops : list Call) (st : State) : State := fold_left transact ops st.

(** *** The log against the bitmap and the ledger *)

(** The event a successful [claim] of [c] emits, and the index an event
    is about. *)
Definition claimed_event (c : Claim) : Event :=
  Claimed (index c) (payee c) (amount c).

Definition event_index (e : Event) : Z :=
  match e with
  | Claimed i _ _ => i
  end.

(** The transfers a list of logged claims stands for, made in order on a
    ledger. *)
Fixpoint replay (evs : list Event) (ledger : Ledger) : result Ledger :=
  match evs with
  | [] => Ok ledger
  | Claimed _ _payee _amount :: rest =>
      let* ledger := safeTransfer ledger _payee _amount in
      replay rest ledger
  end.

(** The bitmap and the log tell the same story: an index is marked claimed
    exactly when the log has an event for it, and no index is logged twice. *)
Definition log_matches_bitmap (st : State) : Prop :=
  (forall i, hasClaimed i st = true <-> i ∈ event_index <$> events st) /\
  NoDup (event_index <$> events st).

(** Every word of the bitmap is a [uint256]. *)
Definition words_are_uint256 (st : State) : Prop :=
  forall w, 0 <= word (claimedBitMap st) w < 2 ^ 256.

End Contract.

End Payout.

(** ** A concrete deployment: Keccak-256, OpenZeppelin's MerkleProof, an ERC20 *)

(** The EVM's [keccak256]: Keccak-f[1600] with rate 1088 bits, the original
    Keccak padding (0x01 ... 0x80) and 256 bits of output.  Bytes are [Z]s
    below 256, the 25 lanes are 64-bit [Z]s, lane (x, y) at position
    [x + 5 * y]. *)
Module Keccak.

Definition lane_mask : Z := 2 ^ 64 - 1.

Definition rotl64 (x n : Z) : Z :=
  Z.land (Z.lor (Z.shiftl x n) (Z.shiftr x (64 - n))) lane_mask.

Definition lane (s : list Z) (x y : nat) : Z :=
  nth (x mod 5 + 5 * (y mod 5)) s 0.

Definition coords : list (nat * nat) :=
  flat_map (fun y => map (fun x => (x, y)) (seq 0 5)) (seq 0 5).

Definition rho_offsets : list Z :=
  [ 0;  1; 62; 28; 27;
   36; 44;  6; 55; 20;
    3; 10; 43; 25; 39;
   41; 45; 15; 21;  8;
   18;  2; 61; 56; 14].

Definition round_constants : list Z :=
  [0x0000000000000001; 0x0000000000008082; 0x800000000000808A; 0x8000000080008000;
   0x000000000000808B; 0x0000000080000001; 0x8000000080008081; 0x8000000000008009;
   0x000000000000008A; 0x0000000000000088; 0x0000000080008009; 0x000000008000000A;
   0x000000008000808B; 0x800000000000008B; 0x8000000000008089; 0x8000000000008003;
   0x8000000000008002; 0x8000000000000080; 0x000000000000800A; 0x800000008000000A;
   0x8000000080008081; 0x8000000000008080; 0x0000000080000001; 0x8000000080008008].

Definition theta (s : list Z) : list Z :=
  let C x := fold_right Z.lxor 0 (map (fun y => lane s x y) (seq 0 5)) in
  let D x := Z.lxor (C (x + 4)%nat) (rotl64 (C (x + 1)%nat) 1) in
  map (fun '(x, y) => Z.lxor (lane s x y) (D x)) coords.

Definition rho_pi (s : list Z) : list Z :=
  map (fun '(x, y) =>
         let sx := (x + 3 * y)%nat in
         rotl64 (lane s sx x) (nth (sx mod 5 + 5 * x) rho_offsets 0)) coords.

Definition chi (s : list Z) : list Z :=
  map (fun '(x, y) =>
         Z.lxor (lane s x y)
                (Z.land (Z.lxor (lane s (x + 1) y) lane_mask) (lane s (x + 2) y)))
      coords.

Definition iota (rc : Z) (s : list Z) : list Z :=
  match s with
  | [] => []
  | a :: s' => Z.lxor a rc :: s'
  end.

Definition round (s : list Z) (rc : Z) : list Z := iota rc (chi (rho_pi (theta s))).

Definition keccak_f (s : list Z) : list Z := fold_left round round_constants s.

Definition le_lane (bs : list Z) : Z :=
  fold_right (fun b acc => b + 256 * acc) 0 bs.

Fixpoint chunks {A : Type} (n : nat) (fuel : nat) (l : list A) : list (list A) :=
  match fuel, l with
  | O, _ | _, [] => []
  | S fuel', _ => take n l :: chunks n fuel' (drop n l)
  end.

Definition rate : nat := 136.

Definition pad (msg : list Z) : list Z :=
  let q := (rate - length msg mod rate)%nat in
  if (q =? 1)%nat then msg ++ [0x81]
  else msg ++ [0x01] ++ repeat 0 (q - 2) ++ [0x80].

Definition absorb (s : list Z) (block : list Z) : list Z :=
  let lanes := map le_lane (chunks 8 17 block) ++ repeat 0 8 in
  keccak_f (zip_with Z.lxor s lanes).

Definition lane_bytes (w : Z) : list Z :=
  map (fun k => Z.land (Z.shiftr w (8 * Z.of_nat k)) 255) (seq 0 8).

Definition keccak256_bytes (msg : list Z) : list Z :=
  let p := pad msg in
  let s := fold_left absorb (chunks rate (length p) p) (repeat 0 25) in
  take 32 (flat_map lane_bytes s).

(** Big-endian value of a byte string, and the [n]-byte big-endian
    encoding of a value: how [abi.encodePacked] lays out [uint256],
    [address] and [bytes32], and how a hash is read as a [bytes32]. *)
Definition be_value (bs : list Z) : Z := fold_left (fun acc b => 256 * acc + b) bs 0.

Definition be_bytes (n : nat) (v : Z) : list Z :=
  map (fun k => Z.land (Z.shiftr v (8 * Z.of_nat (n - 1 - k))) 255) (seq 0 n).

Definition keccak256 (msg : list Z) : Z := be_value (keccak256_bytes msg).

End Keccak.

Module Evm.

Import Payout.

(** [keccak256(abi.encodePacked(_index, _payee, _amount))] *)
Definition leaf_hash (_index : Z) (_payee : address) (_amount : Z) : bytes32 :=
  Keccak.keccak256
    (Keccak.be_bytes 32 _index ++ Keccak.be_bytes 20 _payee ++ Keccak.be_bytes 32 _amount).

(** OpenZeppelin 4.x [MerkleProof.processProof] and [MerkleProof.verify]:
    sorted-pair hashing up to the root. *)
Definition hash_pair (a b : bytes32) : bytes32 :=
  Keccak.keccak256 (Keccak.be_bytes 32 a ++ Keccak.be_bytes 32 b).

Definition processProof (proof : list bytes32) (leaf : bytes32) : bytes32 :=
  fold_left
    (fun computedHash proofElement =>
       if computedHash <=? proofElement
       then hash_pair computedHash proofElement
       else hash_pair proofElement computedHash)
    proof leaf.

Definition verify (proof : list bytes32) (root leaf : bytes32) : bool :=
  processProof proof leaf =? root.

(** An OpenZeppelin-style ERC20 ledger: [transfer] called by [sender]. *)
Definition balanceOf (balances : gmap Z Z) (account : address) : Z :=
  match balances !! account with
  | Some v => v
  | None => 0
  end.

Definition transfer (sender : address) (balances : gmap Z Z)
    (to : address) (value : Z) : result (gmap Z Z) :=
  if to =? 0 then Revert "ERC20: transfer to the zero address"
  else if balanceOf balances sender <? value
  then Revert "ERC20: transfer amount exceeds balance"
  else
    let debited := <[sender := balanceOf balances sender - value]> balances in
    Ok (<[to := balanceOf debited to + value]> debited).

(** The payout contract deployed at address [this] against such a token. *)
Definition env (this : address) : Env :=
  {| Ledger := gmap Z Z;
     safeTransfer := transfer this;
     keccak256_encodePacked := leaf_hash;
     MerkleProof_verify := verify |}.

(** A round with two leaves. *)
Definition this : address := 0x5FbDB2315678afecb367f032d93F642f64180aa3.
Definition alice : address := 0x06c94663E5884BE4cCe85F0869e95C7712d34803.
Definition bob : address := 0x6f02c37ea174DD05f20aC118da725ffa6A40B990.

Definition leaf0 : bytes32 := leaf_hash 0 alice 100.
Definition leaf1 : bytes32 := leaf_hash 1 bob 200.
Definition root : bytes32 := processProof [leaf1] leaf0.

Definition claim0 : Claim :=
  {| index := 0; payee := alice; amount := 100; merkleProof := [leaf1] |}.
Definition claim1 : Claim :=
  {| index := 1; payee := bob; amount := 200; merkleProof := [leaf0] |}.
(** The first leaf with a proof that does not lead to the root. *)
Definition forged : Claim :=
  {| index := 0; payee := bob; amount := 100; merkleProof := [leaf1] |}.

(** The contract right after deployment, with and without funds. *)
Definition funded : ContractState (gmap Z Z) :=
  constructor (env := env this) {[ this := 1000 ]} root.
Definition unfunded : ContractState (gmap Z Z) :=
  constructor (env := env this) ∅ root.

(** The funded contract after [alice] has claimed leaf 0. *)
Definition after_claim0 : ContractState (gmap Z Z) :=
  run (env := env this) [CallClaim claim0] funded.

(** The funded contract after one batch has claimed both leaves. *)
Definition after_batch : ContractState (gmap Z Z) :=
  run (env := env this) [CallBatchClaim [claim0; claim1]] funded.

End Evm.

(** ** The grant data layer *)

Module Grants.

(** *** JavaScript values that ethers calls [BigNumberish] *)

(** A number primitive holding an integer, a string primitive, or an ethers
    [BigNumber] instance, which is an object: it has an identity (its heap
    reference) besides the value it holds. *)
Inductive BigNumberish : Type :=
| JSNumber (n : Z)
| JSString (s : string)
| JSBigNumber (ref : positive) (value : Z).

(** [a === b]: primitives are compared by value, objects by identity (the
    same reference is the same object, so it holds the same value). *)
Definition strict_eq (a b : BigNumberish) : bool :=
  match a, b with
  | JSNumber n, JSNumber m => n =? m
  | JSString s, JSString t => String.eqb s t
  | JSBigNumber r v, JSBigNumber r' v' => Pos.eqb r r' && (v =? v')
  | _, _ => false
  end.

Definition MAX_SAFE : Z := 2 ^ 53 - 1.

Definition decimal_digit (c : ascii) : option Z :=
  let n := Z.of_N (N_of_ascii c) in
  if (48 <=? n) && (n <=? 57) then Some (n - 48) else None.

Definition hex_digit (c : ascii) : option Z :=
  let n := Z.of_N (N_of_ascii c) in
  if (48 <=? n) && (n <=? 57) then Some (n - 48)
  else if (97 <=? n) && (n <=? 102) then Some (n - 87)
  else if (65 <=? n) && (n <=? 70) then Some (n - 55)
  else None.

(** One or more digits in the given base. *)
Fixpoint digits_from (digit : ascii -> option Z) (base acc : Z) (s : string) : option Z :=
  match s with
  | EmptyString => Some acc
  | String c rest =>
      match digit c with
      | Some d => digits_from digit base (base * acc + d) rest
      | None => None
      end
  end.

Definition digits (digit : ascii -> option Z) (base : Z) (s : string) : option Z :=
  match s with
  | EmptyString => None
  | _ => digits_from digit base 0 s
  end.

(** A hexadecimal literal [0x] followed by one or more digits of either
    case.  The prefix must be the lower-case [0x]: ethers lets [0X] past its
    pattern but builds a BigNumber whose [toNumber] and [toString] throw, and
    every use below calls one of the two at once, so such a string is taken
    to throw. *)
Definition hex_literal (s : string) : option Z :=
  match s with
  | String "0" (String "x" rest) => digits hex_digit 16 rest
  | _ => None
  end.

Definition signed (literal : string -> option Z) (s : string) : option Z :=
  match s with
  | String "-" rest => Z.opp <$> literal rest
  | _ => literal s
  end.

(** ethers v5 [BigNumber.from(value)], as the value it denotes; it throws on
    a string that is neither a hexadecimal nor a decimal literal and on a
    number outside the safe range. *)
Definition BigNumber_from (value : BigNumberish) : result Z :=
  match value with
  | JSBigNumber _ v => Ok v
  | JSString s =>
      match signed hex_literal s with
      | Some v => Ok v
      | None =>
          match signed (digits decimal_digit 10) s with
          | Some v => Ok v
          | None => Revert "invalid BigNumber string"
          end
      end
  | JSNumber n =>
      if (MAX_SAFE <=? n) || (n <=? - MAX_SAFE) then Revert "overflow" else Ok n
  end.

(** [BigNumber.prototype.toNumber()] *)
Definition toNumber (v : Z) : result Z :=
  if Z.abs v <? 2 ^ 53 then Ok v else Revert "overflow".

(** The decimal digits of a natural number, most significant first;
    [fuel] bounds the number of digits. *)
Fixpoint decimal_of (fuel : nat) (n : Z) (acc : string) : string :=
  match fuel with
  | O => acc
  | S fuel' =>
      let acc' := String (ascii_of_N (Z.to_N (48 + n mod 10))) acc in
      if n <? 10 then acc' else decimal_of fuel' (n / 10) acc'
  end.

(** [BigNumber.prototype.toString()]: the decimal representation. *)
Definition toString (v : Z) : string :=
  let magnitude := decimal_of (S (Z.to_nat (Z.log2 (Z.abs v)))) (Z.abs v) EmptyString in
  if v <? 0 then String "-" magnitude else magnitude.


(** *** The records of [@dgrants/types] *)

Record MetaPtr : Type := mkMetaPtr {
  protocol : BigNumberish;
  pointer : string
}.

Record Grant : Type := mkGrant {
  id : Z;
  owner : string;
  payee : string;
  metaPtr : MetaPtr;
  createdAt : Z;
  lastUpdated : Z
}.

(** A grant as the subgraph returns it. *)
Record GrantSubgraph : Type := mkGrantSubgraph {
  sg_id : BigNumberish;
  sg_owner : string;
  sg_payee : string;
  sg_metaPtr : MetaPtr;
  createdAtTimestamp : Z;
  lastUpdatedTimestamp : Z;
  lastUpdatedBlockNumber : Z
}.

(** The [args] of a [GrantCreated] or [GrantUpdated] log entry. *)
Record Event : Type := mkEvent {
  args_id : BigNumberish;
  args_owner : string;
  args_payee : string;
  args_metaPtr : MetaPtr;
  args_time : Z
}.

Inductive EventFilter : Type := GrantCreated | GrantUpdated.

(** What [syncStorage] hands to the callback: the cached block number and
    the cached [data.grants], either of which may be missing. *)
Record LocalForageData : Type := mkLocalForageData {
  blockNumber : option Z;
  data_grants : option (gmap Z Grant)
}.

(** The constants and helpers the data layer imports: [START_BLOCK] and
    [SUBGRAPH_URL] of [src/utils/chains], [DGRANTS_CHAIN_ID],
    [import.meta.env.VITE_GRANT_WHITELIST_URI], and [getAddress], which
    normalises an address or throws. *)
Class Config : Type := {
  START_BLOCK : Z;
  SUBGRAPH_URL : option string;
  DGRANTS_CHAIN_ID : Z;
  VITE_GRANT_WHITELIST_URI : option string;
  getAddress : string -> result string
}.

(** The answers of the outside world: [recursiveGraphFetch(url, 'grants',
    query, fromBlock)] and [batchFilterCall({contract, filter, args},
    fromBlock, toBlock)], each of which may throw. *)
Record Network : Type := mkNetwork {
  recursiveGraphFetch : string -> Z -> result (list GrantSubgraph);
  batchFilterCall : EventFilter -> Z -> Z -> result (list Event)
}.

(** The requests a run sends, in order. *)
Inductive Request : Type :=
| SubgraphQuery (url : string) (fromBlock : Z)
| RpcScan (filter : EventFilter) (fromBlock toBlock : Z).

(** What the callback of [getAllGrants] leaves: the array it returns, the
    [_lsGrants] object, and whether it called [save]. *)
Record Synced : Type := mkSynced {
  grants : list Grant;
  _lsGrants : gmap Z Grant;
  saved : bool
}.

(** A string is truthy when it is not empty. *)
Definition truthy (s : option string) : option string :=
  match s with
  | Some EmptyString | None => None
  | Some url => Some url
  end.

(** A key of a JavaScript object is an array index when it is an integer
    from 0 to 2^32 - 2. *)
Definition array_index (k : Z) : Prop := 0 <= k < 2 ^ 32 - 1.

#[global] Instance array_index_dec (k : Z) : Decision (array_index k) :=
  decide (0 <= k < 2 ^ 32 - 1).

Definition by_key (entries : list (Z * Grant)) : list (Z * Grant) :=
  @merge_sort (Z * Grant) (fun a b => a.1 <= b.1)
    (fun a b => decide (a.1 <= b.1)) entries.

(** [Object.values]: the values under array-index keys come first, in
    ascending key order, and the values under the other keys follow.
    JavaScript lists those in the order the keys were inserted, which a
    [gmap] does not record; here they follow by ascending key, and nothing
    below relies on the order among them. *)
Definition Object_values (m : gmap Z Grant) : list Grant :=
  (by_key (filter (fun entry => array_index entry.1) (map_to_list m))
   ++ by_key (filter (fun entry => ~ array_index entry.1) (map_to_list m))).*2.

Section DataLayer.
Context `{cfg : Config}.

(** The body of [grants.forEach((grant: GrantSubgraph) => ...)]. *)
Definition subgraph_grant (grant : GrantSubgraph) : result Grant :=
  let* grantId := bind (BigNumber_from (sg_id grant)) toNumber in
  let* owner' := getAddress (sg_owner grant) in
  let* payee' := getAddress (sg_payee grant) in
  Ok {| id := grantId; owner := owner'; payee := payee';
        metaPtr := sg_metaPtr grant;
        createdAt := createdAtTimestamp grant;
        lastUpdated := lastUpdatedTimestamp grant |}.

(** [grants.forEach] inside the [try]: the assignments made before a
    record throws stay in [_lsGrants]. *)
Fixpoint subgraph_forEach (grants : list GrantSubgraph) (_lsGrants : gmap Z Grant)
  : gmap Z Grant * bool :=
  match grants with
  | [] => (_lsGrants, true)
  | grant :: rest =>
      match subgraph_grant grant with
      | Ok g => subgraph_forEach rest (<[id g := g]> _lsGrants)
      | Revert _ => (_lsGrants, false)
      end
  end.

(** The body of [.map((tx: Event) => ...)]: [createdAt] is read from
    [_lsGrants] as it is while the array is mapped. *)
Definition event_grant (_lsGrants : gmap Z Grant) (tx : Event) : result Grant :=
  let* grantId := bind (BigNumber_from (args_id tx)) toNumber in
  let* owner' := getAddress (args_owner tx) in
  let* payee' := getAddress (args_payee tx) in
  Ok {| id := grantId; owner := owner'; payee := payee';
        metaPtr := args_metaPtr tx;
        createdAt := match _lsGrants !! grantId with
                     | Some cached => createdAt cached
                     | None => args_time tx
                     end;
        lastUpdated := args_time tx |}.

(** [Array.prototype.map] with a callback that may throw. *)
Fixpoint map_throwing {A B : Type} (f : A -> result B) (l : list A) : result (list B) :=
  match l with
  | [] => Ok []
  | a :: rest =>
      let* b := f a in
      let* bs := map_throwing f rest in
      Ok (b :: bs)
  end.

(** [.forEach((grant) => { _lsGrants[grant.id] = grant })] *)
Definition assign_each (gs : list Grant) (_lsGrants : gmap Z Grant) : gmap Z Grant :=
  fold_left (fun m g => <[id g := g]> m) gs _lsGrants.

(** The end of the callback: hydrate, conditionally save, return. *)
Definition hydrate (_lsGrants : gmap Z Grant) : Synced :=
  let grants := Object_values _lsGrants in
  {| grants := grants; _lsGrants := _lsGrants;
     saved := negb (length grants =? 0)%nat |}.

(** The callback [getAllGrants] passes to [syncStorage], run against the
    cached [LocalForageData] that [syncStorage] supplies. *)
Definition getAllGrants (net : Network) (latestBlockNumber : Z) (forceRefresh : bool)
    (LocalForageData : option LocalForageData) : list Request * result Synced :=
  let _lsBlockNumber :=
    match LocalForageData with
    | Some d => default 0 (blockNumber d)
    | None => 0
    end in
  let _lsGrants :=
    match LocalForageData with
    | Some d => default ∅ (data_grants d)
    | None => ∅
    end in
  if forceRefresh || negb (bool_decide (is_Some LocalForageData))
     || (bool_decide (is_Some LocalForageData) && (_lsBlockNumber <? latestBlockNumber))
  then
    let fromBlock := if _lsBlockNumber =? 0 then START_BLOCK else _lsBlockNumber + 1 in
    let '(sent, _lsGrants, fromBlock) :=
      match truthy SUBGRAPH_URL with
      | Some url =>
          match recursiveGraphFetch net url fromBlock with
          | Ok grants =>
              let '(_lsGrants, completed) := subgraph_forEach grants _lsGrants in
              ([SubgraphQuery url fromBlock], _lsGrants,
               if completed then latestBlockNumber else fromBlock)
          | Revert _ => ([SubgraphQuery url fromBlock], _lsGrants, fromBlock)
          end
      | None => ([], _lsGrants, fromBlock)
      end in
    if fromBlock <? latestBlockNumber then
      let sent :=
        sent ++ [RpcScan GrantCreated fromBlock latestBlockNumber;
                 RpcScan GrantUpdated fromBlock latestBlockNumber] in
      (sent,
       let* newGrants := batchFilterCall net GrantCreated fromBlock latestBlockNumber in
       let* updatedGrants := batchFilterCall net GrantUpdated fromBlock latestBlockNumber in
       let* mapped := map_throwing (event_grant _lsGrants) (newGrants ++ updatedGrants) in
       Ok (hydrate (assign_each mapped _lsGrants)))
    else (sent, Ok (hydrate _lsGrants))
  else ([], Ok (hydrate _lsGrants)).

(** *** Which record a grant id ends up with *)

(** The records the subgraph loop assigns: those before the first one that
    throws. *)
Fixpoint subgraph_written (grants : list GrantSubgraph) : list Grant :=
  match grants with
  | [] => []
  | grant :: rest =>
      match subgraph_grant grant with
      | Ok g => g :: subgraph_written rest
      | Revert _ => []
      end
  end.

Definition cached_grants (LocalForageData : option LocalForageData) : gmap Z Grant :=
  match LocalForageData with
  | Some d => default ∅ (data_grants d)
  | None => ∅
  end.

(** Every record a run assigns into [_lsGrants], in the order of the
    assignments: the subgraph's records, then, when the log scan runs, the
    GrantCreated events followed by the GrantUpdated events. *)
Definition written (net : Network) (latestBlockNumber : Z) (forceRefresh : bool)
    (LocalForageData : option LocalForageData) : list Grant :=
  let _lsBlockNumber :=
    match LocalForageData with
    | Some d => default 0 (blockNumber d)
    | None => 0
    end in
  if forceRefresh || negb (bool_decide (is_Some LocalForageData))
     || (bool_decide (is_Some LocalForageData) && (_lsBlockNumber <? latestBlockNumber))
  then
    let fromBlock := if _lsBlockNumber =? 0 then START_BLOCK else _lsBlockNumber + 1 in
    let '(fromSubgraph, fromBlock) :=
      match truthy SUBGRAPH_URL with
      | Some url =>
          match recursiveGraphFetch net url fromBlock with
          | Ok grants =>
              (subgraph_written grants,
               if (subgraph_forEach grants ∅).2 then latestBlockNumber else fromBlock)
          | Revert _ => ([], fromBlock)
          end
      | None => ([], fromBlock)
      end in
    if fromBlock <? latestBlockNumber then
      match batchFilterCall net GrantCreated fromBlock latestBlockNumber,
            batchFilterCall net GrantUpdated fromBlock latestBlockNumber with
      | Ok newGrants, Ok updatedGrants =>
          match map_throwing
                  (event_grant (assign_each fromSubgraph (cached_grants LocalForageData)))
                  (newGrants ++ updatedGrants) with
          | Ok mapped => fromSubgraph ++ mapped
          | Revert _ => fromSubgraph
          end
      | _, _ => fromSubgraph
      end
    else fromSubgraph
  else [].

(** The records seen for grant id [k], oldest first: the cached one, then
    the written ones. *)
Definition seen (k : Z) (cached : gmap Z Grant) (W : list Grant) : list Grant :=
  option_list (cached !! k) ++ filter (fun g => id g = k) W.

(** Last write wins. *)
Definition latest_write (k : Z) (cached : gmap Z Grant) (W : list Grant) : option Grant :=
  last (seen k cached W).

(** *** [grantListener] *)

Definition areMetaPtrsEqual (x y : MetaPtr) : result bool :=
  let* px := BigNumber_from (protocol x) in
  let* py := BigNumber_from (protocol y) in
  Ok (String.eqb (toString px) (toString py)
      && strict_eq (protocol x) (protocol y)).

(** The guard of the listener's call to [getMetadata]:
    [_lsGrants[grantId] && !areMetaPtrsEqual(_lsGrants[grantId].metaPtr, metaPtr)]. *)
Definition refetches_metadata (_lsGrants : gmap Z Grant) (grantId : Z) (metaPtr' : MetaPtr)
  : result bool :=
  match _lsGrants !! grantId with
  | Some cached =>
      let* same := areMetaPtrsEqual (metaPtr cached) metaPtr' in
      Ok (negb same)
  | None => Ok false
  end.

(** *** [getApprovedGrants] *)

(** A whitelist: chain id to approved grant ids. *)
Definition Whitelist : Type := gmap Z (list Z).

(** The outcome of [fetch(url).then((res) => res.json())]: it throws, or
    yields JSON that is falsy ([None]) or a whitelist object. *)
Inductive Fetched : Type :=
| FetchThrows (reason : string)
| FetchJson (json : option Whitelist).

Record Approved : Type := mkApproved {
  approved_grants : list Grant;
  approvedGrantsPk : option (list Z)
}.

(** [grants.filter((grant) => whiteList[DGRANTS_CHAIN_ID].includes(grant.id))]:
    the callback runs once per grant, and throws a TypeError when the
    whitelist has no entry for the chain. *)
Definition filterWhiteListed (grants : list Grant) (whiteList : Whitelist)
  : result (list Grant) :=
  match grants with
  | [] => Ok []
  | _ =>
      match whiteList !! DGRANTS_CHAIN_ID with
      | Some ids => Ok (filter (fun grant => id grant ∈ ids) grants)
      | None => Revert "TypeError: Cannot read properties of undefined (reading 'includes')"
      end
  end.

(** [fallback]: filter by the whitelist cached under the storage key
    'whitelist', or throw when there is none. *)
Definition fallback (grants : list Grant) (storage : option Whitelist) : result Approved :=
  match storage with
  | Some cachedWhiteList =>
      let* filtered := filterWhiteListed grants cachedWhiteList in
      Ok {| approved_grants := filtered;
            approvedGrantsPk := cachedWhiteList !! DGRANTS_CHAIN_ID |}
  | None => Revert "Failed to load whitelist and couldn't find a cached"
  end.

(** [getApprovedGrants(grants)], against the outcome of the fetch and the
    storage slot 'whitelist'; it returns the slot as it leaves it. *)
Definition getApprovedGrants (fetched : Fetched) (storage : option Whitelist)
    (grants : list Grant) : option Whitelist * result Approved :=
  match truthy VITE_GRANT_WHITELIST_URI with
  | Some whitelistUrl =>
      match fetched with
      | FetchJson (Some json) =>
          (* setStorageKey, then the filter; an exception goes to [catch] *)
          let storage := Some json in
          match filterWhiteListed grants json with
          | Ok filtered =>
              (storage, Ok {| approved_grants := filtered;
                              approvedGrantsPk := json !! DGRANTS_CHAIN_ID |})
          | Revert _ => (storage, fallback grants storage)
          end
      | FetchJson None =>
          (* [fallback()] inside [try]; if it throws, [catch] runs it again *)
          match fallback grants storage with
          | Ok approved => (storage, Ok approved)
          | Revert _ => (storage, fallback grants storage)
          end
      | FetchThrows _ => (storage, fallback grants storage)
      end
  | None => (storage, Ok {| approved_grants := grants; approvedGrantsPk := Some [] |})
  end.

(** The fetch did not deliver a whitelist: it threw, or the JSON is falsy. *)
Definition fetch_failed (fetched : Fetched) : bool :=
  match fetched with
  | FetchJson (Some _) => false
  | _ => true
  end.

(** *** The listener of [grantListener] *)

(** The reactive references the listener writes: [refs.grants],
    [refs.approvedGrants] and [refs.approvedGrantsPk]. *)
Record Refs : Type := mkRefs {
  ref_grants : list Grant;
  ref_approvedGrants : list Grant;
  ref_approvedGrantsPk : option (list Z)
}.

(** The calls the listener makes into [./metaPtrs] and to [save], in
    order; none of them is taken to throw. *)
Inductive Effect : Type :=
| GetMetadata (metaPtr : MetaPtr)
| FetchMetaPtrs (metaPtrs : list MetaPtr)
| Save.

(** What one delivery of an event leaves: the references, the storage slot
    'whitelist', the calls made, and the [{ grants: _lsGrants }] the callback
    returns, or the exception it throws. *)
Record Heard : Type := mkHeard {
  heard_refs : Refs;
  heard_storage : option Whitelist;
  heard_effects : list Effect;
  heard_result : result (gmap Z Grant)
}.

(** The callback the listener passes to [syncStorage], run against the
    cached [LocalForageData].  The listener's arguments [grantId], [owner],
    [payee], [metaPtr] and [time] are the [args] of the event, [tx]. *)
Definition grantListener (fetched : Fetched) (storage : option Whitelist) (refs : Refs)
    (LocalForageData : option LocalForageData) (tx : Event) : Heard :=
  let _lsGrants := cached_grants LocalForageData in
  let thrown effects reason :=
    {| heard_refs := refs; heard_storage := storage;
       heard_effects := effects; heard_result := Revert reason |} in
  match bind (BigNumber_from (args_id tx)) toNumber with
  | Revert reason => thrown [] reason
  | Ok grantId =>
  match refetches_metadata _lsGrants grantId (args_metaPtr tx) with
  | Revert reason => thrown [] reason
  | Ok refetch =>
  let effects := if refetch then [GetMetadata (args_metaPtr tx)] else [] in
  match getAddress (args_owner tx) with
  | Revert reason => thrown effects reason
  | Ok owner' =>
  match getAddress (args_payee tx) with
  | Revert reason => thrown effects reason
  | Ok payee' =>
      let _lsGrants :=
        <[grantId :=
            {| id := grantId; owner := owner'; payee := payee';
               metaPtr := args_metaPtr tx;
               createdAt := match _lsGrants !! grantId with
                            | Some cached => createdAt cached
                            | None => args_time tx
                            end;
               lastUpdated := args_time tx |}]> _lsGrants in
      let updatedGrants := Object_values _lsGrants in
      let grantMetaPtrs := metaPtr <$> updatedGrants in
      match getApprovedGrants fetched storage updatedGrants with
      | (storage, Revert reason) =>
          {| heard_refs :=
               {| ref_grants := updatedGrants;
                  ref_approvedGrants := ref_approvedGrants refs;
                  ref_approvedGrantsPk := ref_approvedGrantsPk refs |};
             heard_storage := storage;
             heard_effects := effects;
             heard_result := Revert reason |}
      | (storage, Ok updatedApprovedGrants) =>
          {| heard_refs :=
               {| ref_grants := updatedGrants;
                  ref_approvedGrants := approved_grants updatedApprovedGrants;
                  ref_approvedGrantsPk := approvedGrantsPk updatedApprovedGrants |};
             heard_storage := storage;
             heard_effects := effects ++ [FetchMetaPtrs grantMetaPtrs; Save];
             heard_result := Ok _lsGrants |}
      end
  end end end end.

(** Every grant is stored under its own id. *)
Definition well_keyed (m : gmap Z Grant) : Prop :=
  forall k g, m !! k = Some g -> id g = k.

(** Values up to the identity of the objects that hold them: a log entry
    decoded twice gives fresh BigNumber objects, and a cache read back from
    storage holds copies. *)
Definition same_metaPtr (x y : MetaPtr) : Prop :=
  BigNumber_from (protocol x) = BigNumber_from (protocol y) /\
  pointer x = pointer y.

Definition same_grant (g h : Grant) : Prop :=
  id g = id h /\ owner g = owner h /\ payee g = payee h /\
  same_metaPtr (metaPtr g) (metaPtr h) /\
  createdAt g = createdAt h /\ lastUpdated g = lastUpdated h.

Definition same_event (tx tx' : Event) : Prop :=
  bind (BigNumber_from (args_id tx)) toNumber =
    bind (BigNumber_from (args_id tx')) toNumber /\
  args_owner tx = args_owner tx' /\ args_payee tx = args_payee tx' /\
  same_metaPtr (args_metaPtr tx) (args_metaPtr tx') /\
  args_time tx = args_time tx'.

Definition same_grants (m m' : gmap Z Grant) : Prop :=
  forall k,
    match m !! k, m' !! k with
    | Some g, Some h => same_grant g h
    | None, None => True
    | _, _ => False
    end.

(** The record a finished run holds for grant id [k]. *)
Definition synced_grant (run : list Request * result Synced) (k : Z) : option Grant :=
  match run.2 with
  | Ok out => _lsGrants out !! k
  | Revert _ => None
  end.

End DataLayer.

End Grants.

(** Sample data for the data layer: one grant, a subgraph, a log. *)
Module Sample.

Import Grants.

(** Addresses below are already in the form [getAddress] returns. *)
Definition cfg : Config :=
  {| START_BLOCK := 1;
     SUBGRAPH_URL := Some "https://subgraph.example/dgrants";
     DGRANTS_CHAIN_ID := 1;
     VITE_GRANT_WHITELIST_URI := Some "https://whitelist.example/grants.json";
     getAddress := fun a => Ok a |}.

Definition url : string := "https://subgraph.example/dgrants".

Definition ipfs (cid : string) : MetaPtr := {| protocol := JSNumber 1; pointer := cid |}.

Definition owner7 : string := "0x34f4E532a33EB545941e914B25Efe348Aea31f0A".
Definition payee7 : string := "0x06c94663E5884BE4cCe85F0869e95C7712d34803".

(** Grant 7 as cached, last updated at time 100. *)
Definition cached7 : Grant :=
  {| id := 7; owner := owner7; payee := payee7; metaPtr := ipfs "QmCached";
     createdAt := 90; lastUpdated := 100 |}.

Definition cache_at (block : Z) (m : gmap Z Grant) : LocalForageData :=
  {| blockNumber := Some block; data_grants := Some m |}.

(** A subgraph that answers with grant 7 as of time [time]. *)
Definition subgraph7 (time : Z) : GrantSubgraph :=
  {| sg_id := JSString "7"; sg_owner := owner7; sg_payee := payee7;
     sg_metaPtr := ipfs "QmSubgraph";
     createdAtTimestamp := 90; lastUpdatedTimestamp := time;
     lastUpdatedBlockNumber := 11 |}.

Definition indexed7 (time : Z) : Grant :=
  {| id := 7; owner := owner7; payee := payee7; metaPtr := ipfs "QmSubgraph";
     createdAt := 90; lastUpdated := time |}.

Definition net_subgraph (time : Z) : Network :=
  {| recursiveGraphFetch := fun _ _ => Ok [subgraph7 time];
     batchFilterCall := fun _ _ _ => Ok [] |}.

(** A network whose subgraph is down and whose log has one GrantCreated
    entry, for grant 3, in block 10. *)
Definition created3 : Event :=
  {| args_id := JSBigNumber 1 3; args_owner := owner7; args_payee := payee7;
     args_metaPtr := {| protocol := JSBigNumber 2 1; pointer := "QmThree" |};
     args_time := 500 |}.

Definition grant3 : Grant :=
  {| id := 3; owner := owner7; payee := payee7;
     metaPtr := {| protocol := JSBigNumber 2 1; pointer := "QmThree" |};
     createdAt := 500; lastUpdated := 500 |}.

Definition net_subgraph_down : Network :=
  {| recursiveGraphFetch := fun _ _ => Revert "Subgraph request failed";
     batchFilterCall := fun filter fromBlock toBlock =>
       match filter with
       | GrantCreated =>
           if (fromBlock <=? 10) && (10 <=? toBlock) then Ok [created3] else Ok []
       | GrantUpdated => Ok []
       end |}.

(** Whitelists: grant 7 approved on chain 1. *)
Definition whitelist_new : gmap Z (list Z) := {[ 1 := [7; 9] ]}.
Definition whitelist_old : gmap Z (list Z) := {[ 1 := [3] ]}.

(** A whitelist that has no entry for chain 1. *)
Definition whitelist_other_chain : gmap Z (list Z) := {[ 5 := [7] ]}.

(** The same configuration without a subgraph. *)
Definition cfg_rpc : Config :=
  {| START_BLOCK := 1;
     SUBGRAPH_URL := None;
     DGRANTS_CHAIN_ID := 1;
     VITE_GRANT_WHITELIST_URI := Some "https://whitelist.example/grants.json";
     getAddress := fun a => Ok a |}.

(** A subgraph whose second record has an id that is not a number. *)
Definition subgraph_malformed : GrantSubgraph :=
  {| sg_id := JSString "seven"; sg_owner := owner7; sg_payee := payee7;
     sg_metaPtr := ipfs "QmMalformed";
     createdAtTimestamp := 90; lastUpdatedTimestamp := 160;
     lastUpdatedBlockNumber := 12 |}.

Definition subgraph9 : GrantSubgraph :=
  {| sg_id := JSString "9"; sg_owner := owner7; sg_payee := payee7;
     sg_metaPtr := ipfs "QmNine";
     createdAtTimestamp := 170; lastUpdatedTimestamp := 170;
     lastUpdatedBlockNumber := 13 |}.

Definition net_subgraph_malformed : Network :=
  {| recursiveGraphFetch := fun _ _ => Ok [subgraph7 150; subgraph_malformed; subgraph9];
     batchFilterCall := fun filter _ _ =>
       match filter with
       | GrantCreated => Ok [created3]
       | GrantUpdated => Ok []
       end |}.

(** A log in which grant 5 is created at time 500 and updated at time 600. *)
Definition created5 : Event :=
  {| args_id := JSBigNumber 5 5; args_owner := owner7; args_payee := payee7;
     args_metaPtr := {| protocol := JSBigNumber 6 1; pointer := "QmFive" |};
     args_time := 500 |}.

Definition updated5 : Event :=
  {| args_id := JSBigNumber 7 5; args_owner := owner7; args_payee := payee7;
     args_metaPtr := {| protocol := JSBigNumber 8 1; pointer := "QmFiveB" |};
     args_time := 600 |}.

Definition grant5 : Grant :=
  {| id := 5; owner := owner7; payee := payee7;
     metaPtr := {| protocol := JSBigNumber 8 1; pointer := "QmFiveB" |};
     createdAt := 600; lastUpdated := 600 |}.

Definition net_log5 : Network :=
  {| recursiveGraphFetch := fun _ _ => Revert "Subgraph request failed";
     batchFilterCall := fun filter _ _ =>
       match filter with
       | GrantCreated => Ok [created5]
       | GrantUpdated => Ok [updated5]
       end |}.

(** A network on which the subgraph and the GrantUpdated scan both fail. *)
Definition net_scan_fails : Network :=
  {| recursiveGraphFetch := fun _ _ => Revert "Subgraph request failed";
     batchFilterCall := fun filter _ _ =>
       match filter with
       | GrantCreated => Ok [created3]
       | GrantUpdated => Revert "timeout"
       end |}.

(** A GrantUpdated event for grant 7 at time 700, as the listener gets it,
    and the record it leads to. *)
Definition updated7 : Event :=
  {| args_id := JSBigNumber 9 7; args_owner := owner7; args_payee := payee7;
     args_metaPtr := {| protocol := JSBigNumber 10 1; pointer := "QmHeard" |};
     args_time := 700 |}.

Definition heard7 : Grant :=
  {| id := 7; owner := owner7; payee := payee7;
     metaPtr := {| protocol := JSBigNumber 10 1; pointer := "QmHeard" |};
     createdAt := 90; lastUpdated := 700 |}.

(** The same log entry decoded a second time, into fresh objects; the
    record it leads to; and a copy of [heard7] as read back from storage. *)
Definition updated7_again : Event :=
  {| args_id := JSBigNumber 11 7; args_owner := owner7; args_payee := payee7;
     args_metaPtr := {| protocol := JSBigNumber 12 1; pointer := "QmHeard" |};
     args_time := 700 |}.

Definition heard7_again : Grant :=
  {| id := 7; owner := owner7; payee := payee7;
     metaPtr := {| protocol := JSBigNumber 12 1; pointer := "QmHeard" |};
     createdAt := 90; lastUpdated := 700 |}.

Definition heard7_copy : Grant :=
  {| id := 7; owner := owner7; payee := payee7;
     metaPtr := {| protocol := JSBigNumber 13 1; pointer := "QmHeard" |};
     createdAt := 90; lastUpdated := 700 |}.


Definition refs0 : Refs :=
  {| ref_grants := [cached7]; ref_approvedGrants := [];
     ref_approvedGrantsPk := Some [] |}.

End Sample.

(** ** Facts about the payout contract *)

Section PayoutFacts.
Import Payout.
Context `{env : Env}.

Lemma mask_pow2 (b : Z) : 0 <= b < 256 -> uint256 (Z.shiftl 1 b) = 2 ^ b.
Proof.
  intros Hb. unfold uint256. rewrite Z.shiftl_1_l.
  apply Z.mod_small. split; [apply Z.pow_nonneg; lia|].
  apply Z.pow_lt_mono_r; lia.
Qed.

Lemma land_pow2_testbit (w b : Z) :
  0 <= b -> (Z.land w (2 ^ b) =? 2 ^ b) = Z.testbit w b.
Proof.
  intros Hb. destruct (Z.testbit w b) eqn:Hw.
  - apply Z.eqb_eq. apply Z.bits_inj'. intros n Hn.
    rewrite Z.land_spec. destruct (Z.eq_dec n b) as [->|Hne].
    + rewrite Hw, Z.pow2_bits_true by lia. reflexivity.
    + rewrite Z.pow2_bits_false by lia. apply andb_false_r.
  - apply Z.eqb_neq. intros Heq.
    assert (Z.testbit (Z.land w (2 ^ b)) b = true) as Hbit.
    { rewrite Heq. apply Z.pow2_bits_true; lia. }
    rewrite Z.land_spec, Hw in Hbit. discriminate.
Qed.

Lemma bit_index_range (i : Z) : 0 <= i mod 256 < 256.
Proof. apply Z.mod_pos_bound. lia. Qed.

(** [hasClaimed] reads bit [i mod 256] of word [i / 256]. *)
Lemma hasClaimed_testbit (i : Z) (st : State) :
  hasClaimed i st = Z.testbit (word (claimedBitMap st) (i / 256)) (i mod 256).
Proof.
  pose proof (bit_index_range i) as Hb.
  unfold hasClaimed. cbv zeta. rewrite mask_pow2 by exact Hb.
  apply land_pow2_testbit. lia.
Qed.

(** Index [i] is the pair of its word and its bit. *)
Lemma index_split (i j : Z) :
  i / 256 = j / 256 -> i mod 256 = j mod 256 -> i = j.
Proof.
  intros Hw Hb.
  rewrite (Z.div_mod i 256), (Z.div_mod j 256) by lia. congruence.
Qed.

(** What [_setClaimed] writes, bit by bit. *)
Lemma setClaimed_bits (i w b : Z) (st : State) :
  0 <= b ->
  Z.testbit (word (claimedBitMap (_setClaimed i st)) w) b =
  Z.testbit (word (claimedBitMap st) w) b
  || bool_decide (w = i / 256 /\ b = i mod 256).
Proof.
  intros Hb. pose proof (bit_index_range i) as Hi.
  unfold _setClaimed, word; cbn [claimedBitMap].
  destruct (decide (i / 256 = w)) as [<-|Hne].
  - rewrite lookup_insert_eq.
    rewrite Z.lor_spec, mask_pow2 by exact Hi.
    destruct (decide (b = i mod 256)) as [->|Hnb].
    + rewrite Z.pow2_bits_true by lia.
      rewrite bool_decide_eq_true_2 by done. reflexivity.
    + rewrite Z.pow2_bits_false by lia.
      rewrite bool_decide_eq_false_2 by (intros [_ ?]; done). reflexivity.
  - rewrite lookup_insert_ne by done.
    rewrite bool_decide_eq_false_2 by (intros [? _]; done).
    symmetry. apply orb_false_r.
Qed.

Lemma hasClaimed_setClaimed (i j : Z) (st : State) :
  hasClaimed j (_setClaimed i st) = hasClaimed j st || bool_decide (i = j).
Proof.
  pose proof (bit_index_range j) as Hj.
  rewrite !hasClaimed_testbit, setClaimed_bits by lia.
  f_equal. apply bool_decide_ext. split.
  - intros [Hw Hb]. symmetry. by apply index_split.
  - intros ->. done.
Qed.

(** *** [claim] *)

Lemma claim_already_claimed (c : Claim) (st : State) :
  hasClaimed (index c) st = true ->
  claim c st = Revert "MerkleGrantRoundPayout: Funds already claimed".
Proof. intros H. unfold claim. cbv zeta. rewrite H. reflexivity. Qed.

Lemma claim_invalid_proof (c : Claim) (st : State) :
  hasClaimed (index c) st = false ->
  leaf_verifies c st = false ->
  claim c st = Revert "MerkleGrantRoundPayout: Invalid proof.".
Proof.
  unfold leaf_verifies. intros H1 H2. unfold claim. cbv zeta.
  rewrite H1, H2. reflexivity.
Qed.

Lemma claim_checks_pass (c : Claim) (st : State) :
  hasClaimed (index c) st = false ->
  leaf_verifies c st = true ->
  claim c st =
  bind (safeTransfer (tokenLedger st) (payee c) (amount c))
       (fun ledger' => Ok (claimed_state c st ledger')).
Proof.
  unfold leaf_verifies. intros H1 H2. unfold claim. cbv zeta.
  rewrite H1, H2. reflexivity.
Qed.

Lemma claim_Ok_inv (c : Claim) (st st' : State) :
  claim c st = Ok st' ->
  hasClaimed (index c) st = false /\
  leaf_verifies c st = true /\
  exists ledger',
    safeTransfer (tokenLedger st) (payee c) (amount c) = Ok ledger' /\
    st' = claimed_state c st ledger'.
Proof.
  intros Hok.
  destruct (hasClaimed (index c) st) eqn:H1.
  { rewrite claim_already_claimed in Hok by exact H1. discriminate. }
  destruct (leaf_verifies c st) eqn:H2.
  2:{ rewrite claim_invalid_proof in Hok by assumption. discriminate. }
  rewrite claim_checks_pass in Hok by assumption.
  destruct (safeTransfer (tokenLedger st) (payee c) (amount c)) as [l'|r] eqn:H3;
    cbn [bind] in Hok; [|discriminate].
  injection Hok as <-. eauto.
Qed.

Lemma hasClaimed_claimed_state (i : Z) (c : Claim) (st : State) (l : Ledger) :
  hasClaimed i (claimed_state c st l) =
  hasClaimed i st || bool_decide (index c = i).
Proof. rewrite <- hasClaimed_setClaimed. reflexivity. Qed.

(** A successful [claim] never clears a bit. *)
Lemma claim_mono (i : Z) (c : Claim) (st st' : State) :
  claim c st = Ok st' -> hasClaimed i st = true -> hasClaimed i st' = true.
Proof.
  intros Hok Hi. apply claim_Ok_inv in Hok as (_ & _ & l & _ & ->).
  rewrite hasClaimed_claimed_state, Hi. reflexivity.
Qed.

Lemma claim_sequentially_mono (i : Z) (cs : list Claim) :
  forall st st' : State,
    claim_sequentially cs st = Ok st' ->
    hasClaimed i st = true -> hasClaimed i st' = true.
Proof.
  induction cs as [|c cs IH]; intros st st' Hok Hi; cbn in Hok.
  - by injection Hok as <-.
  - destruct (claim c st) as [st1|] eqn:Hc; cbn [bind] in Hok; [|discriminate].
    eapply IH; [exact Hok|]. eapply claim_mono; eauto.
Qed.

(** *** [batchClaim] *)

(** Whenever the loop returns, it returns what the sequential calls do. *)
Lemma batchClaim_loop_Ok (cs : list Claim) (gas : nat) :
  forall (i : Z) (st st' : State),
    0 <= i ->
    batchClaim_loop gas cs i st = Ok st' ->
    claim_sequentially (drop (Z.to_nat i) cs) st = Ok st'.
Proof.
  induction gas as [|gas IH]; intros i st st' Hi Hloop; cbn in Hloop.
  - destruct (Z.ltb_spec i (Z.of_nat (length cs))); [discriminate|].
    rewrite drop_ge by lia. exact Hloop.
  - destruct (Z.ltb_spec i (Z.of_nat (length cs))).
    2:{ rewrite drop_ge by lia. exact Hloop. }
    destruct (cs !! Z.to_nat i) as [c|] eqn:Hc; [|discriminate].
    rewrite (drop_S _ _ _ Hc). cbn [claim_sequentially].
    destruct (claim c st) as [st1|]; cbn [bind] in *; [|discriminate].
    destruct (i + 1 <? 2 ^ 256); [|discriminate].
    replace (S (Z.to_nat i)) with (Z.to_nat (i + 1)) by lia.
    apply IH; [lia | exact Hloop].
Qed.

(** With a counter that cannot overflow and enough iterations left, the
    loop is the sequence of calls. *)
Lemma batchClaim_loop_eq (cs : list Claim) (gas : nat) :
  forall (i : Z) (st : State),
    Z.of_nat (length cs) < 2 ^ 256 ->
    0 <= i ->
    (length cs <= gas + Z.to_nat i)%nat ->
    batchClaim_loop gas cs i st = claim_sequentially (drop (Z.to_nat i) cs) st.
Proof.
  induction gas as [|gas IH]; intros i st Hlen Hi Hgas; cbn.
  - destruct (Z.ltb_spec i (Z.of_nat (length cs))); [lia|].
    rewrite drop_ge by lia. reflexivity.
  - destruct (Z.ltb_spec i (Z.of_nat (length cs))).
    2:{ rewrite drop_ge by lia. reflexivity. }
    destruct (lookup_lt_is_Some_2 cs (Z.to_nat i)) as [c Hc]; [lia|].
    rewrite Hc, (drop_S _ _ _ Hc). cbn [claim_sequentially].
    destruct (claim c st) as [st1|]; cbn [bind]; [|reflexivity].
    destruct (Z.ltb_spec (i + 1) (2 ^ 256)); [|lia].
    replace (S (Z.to_nat i)) with (Z.to_nat (i + 1)) by lia.
    apply IH; lia.
Qed.

Lemma not_Ok_reverts {A : Type} (r : result A) :
  (forall a, r <> Ok a) -> reverts r.
Proof. destruct r as [a|reason]; intros H; [by destruct (H a) | by exists reason]. Qed.

Lemma commit_reverts {S : Type} (tx : S -> result S) (st : S) :
  reverts (tx st) -> commit tx st = st.
Proof. intros [reason H]. unfold commit. rewrite H. reflexivity. Qed.

(** A failing call anywhere in the sequence fails the sequence. *)
Lemma claim_sequentially_fails_at (cs : list Claim) :
  forall (k : nat) (c : Claim) (st stk : State),
    cs !! k = Some c ->
    claim_sequentially (take k cs) st = Ok stk ->
    reverts (claim c stk) ->
    reverts (claim_sequentially cs st).
Proof.
  induction cs as [|c0 cs IH]; intros k c st stk Hk Hpre Hfail; [done|].
  destruct k as [|k]; cbn in *.
  - injection Hk as ->. injection Hpre as ->.
    destruct Hfail as [reason ->]. by exists reason.
  - destruct (claim c0 st) as [st1|reason]; cbn [bind] in *; [|by exists reason].
    eapply IH; eauto.
Qed.

Lemma claim_sequentially_prefix (cs : list Claim) :
  forall (k : nat) (st : State),
    reverts (claim_sequentially (take k cs) st) ->
    reverts (claim_sequentially cs st).
Proof.
  induction cs as [|c0 cs IH]; intros k st Hpre.
  - by rewrite take_nil in Hpre.
  - destruct k as [|k]; cbn in *.
    + destruct Hpre as [? ?]. discriminate.
    + destruct (claim c0 st) as [st1|reason]; cbn [bind] in *; [|by exists reason].
      eapply IH; eauto.
Qed.

Lemma claim_merkleRoot (c : Claim) (st st' : State) :
  claim c st = Ok st' -> merkleRoot st' = merkleRoot st.
Proof. intros Hok. by apply claim_Ok_inv in Hok as (_ & _ & l & _ & ->). Qed.

Lemma claim_sequentially_merkleRoot (cs : list Claim) :
  forall st st' : State,
    claim_sequentially cs st = Ok st' -> merkleRoot st' = merkleRoot st.
Proof.
  induction cs as [|c cs IH]; intros st st' Hok; cbn in Hok.
  - by injection Hok as <-.
  - destruct (claim c st) as [st1|] eqn:Hc; cbn [bind] in Hok; [|discriminate].
    rewrite (IH _ _ Hok). by eapply claim_merkleRoot.
Qed.

Lemma transact_mono (i : Z) (op : Call) (st : State) :
  hasClaimed i st = true -> hasClaimed i (transact st op) = true.
Proof.
  intros Hi. unfold transact, commit.
  destruct (call op st) as [st'|] eqn:Hcall; [|exact Hi].
  destruct op as [c|cs]; cbn [call] in Hcall.
  - eapply claim_mono; eauto.
  - apply batchClaim_loop_Ok in Hcall; [|lia].
    change (Z.to_nat 0) with 0%nat in Hcall. rewrite drop_0 in Hcall.
    eapply claim_sequentially_mono; eauto.
Qed.

(** When every call of the sequence succeeds, the same calls sent as
    transactions of their own end in the same state. *)
Lemma claim_sequentially_run (cs : list Claim) :
  forall st st' : State,
    claim_sequentially cs st = Ok st' -> run (CallClaim <$> cs) st = st'.
Proof.
  induction cs as [|c cs IH]; intros st st' Hok; cbn in Hok.
  - by injection Hok as <-.
  - destruct (claim c st) as [st1|] eqn:Hc; cbn [bind] in Hok; [|discriminate].
    cbn. unfold transact at 2, commit. cbn [call]. rewrite Hc. by apply IH.
Qed.

(** *** The claims about the contract *)

(** C1, as the contract has it: [claim] succeeds exactly when the index
    is not yet marked claimed, the Merkle proof verifies the leaf
    keccak256(index, payee, amount) against the fixed root, and the
    token's safeTransfer of [amount] to [payee] does not revert.  On
    success the index is marked claimed, every other index and the root
    are untouched, the ledger is the one that transfer produced, and one
    Claimed(index, payee, amount) event is appended to the log. *)
Theorem claim_succeeds_iff (c : Claim) (st : State) :
  (succeeds (claim c st) <->
     hasClaimed (index c) st = false /\
     leaf_verifies c st = true /\
     succeeds (safeTransfer (tokenLedger st) (payee c) (amount c)))
  /\
  (forall st', claim c st = Ok st' ->
     hasClaimed (index c) st' = true /\
     (forall j, j <> index c -> hasClaimed j st' = hasClaimed j st) /\
     safeTransfer (tokenLedger st) (payee c) (amount c) = Ok (tokenLedger st') /\
     events st' = events st ++ [Claimed (index c) (payee c) (amount c)] /\
     merkleRoot st' = merkleRoot st).
Proof.
  split; [split|].
  - intros [st' Hok]. apply claim_Ok_inv in Hok as (H1 & H2 & l & H3 & _).
    repeat split; try assumption. by exists l.
  - intros (H1 & H2 & [l H3]).
    rewrite claim_checks_pass, H3 by assumption. cbn [bind]. by eexists.
  - intros st' Hok. apply claim_Ok_inv in Hok as (H1 & H2 & l & H3 & ->).
    repeat split; try done.
    + rewrite hasClaimed_claimed_state, bool_decide_eq_true_2 by done.
      apply orb_true_r.
    + intros j Hj.
      rewrite hasClaimed_claimed_state, bool_decide_eq_false_2 by done.
      apply orb_false_r.
Qed.

(** C2: the claimed state of every index is monotonic.  Once
    hasClaimed(i) is true it stays true after any sequence of claim and
    batchClaim transactions, whether they succeed or revert. *)
Theorem hasClaimed_monotonic (i : Z) (ops : list Call) (st : State) :
  hasClaimed i st = true -> hasClaimed i (run ops st) = true.
Proof.
  revert st. induction ops as [|op ops IH]; intros st Hi; cbn; [exact Hi|].
  apply IH. by apply transact_mono.
Qed.

(** C3: a leaf is paid out at most once.  When hasClaimed(index) is
    already true, claim reverts with "MerkleGrantRoundPayout: Funds
    already claimed", and the bitmap, the token ledger and the event log
    are what they were. *)
Theorem claim_already_claimed_reverts (c : Claim) (st : State) :
  hasClaimed (index c) st = true ->
  claim c st = Revert "MerkleGrantRoundPayout: Funds already claimed" /\
  commit (claim c) st = st /\
  claimedBitMap (commit (claim c) st) = claimedBitMap st /\
  tokenLedger (commit (claim c) st) = tokenLedger st.
Proof.
  intros H. pose proof (claim_already_claimed c st H) as Hrev.
  assert (commit (claim c) st = st) as Hc.
  { unfold commit. by rewrite Hrev. }
  rewrite Hc. done.
Qed.

(** C7: the claimed bitmap is a packed array of booleans.  For distinct
    indices i and j, _setClaimed(i) leaves hasClaimed(j) as it was; after
    _setClaimed(i), hasClaimed(i) is true; hasClaimed(i) is bit i mod 256
    of word i / 256; and _setClaimed(i) changes no other bit of any word. *)
Theorem setClaimed_packed (i j : Z) (st : State) :
  i <> j ->
  hasClaimed j (_setClaimed i st) = hasClaimed j st /\
  hasClaimed i (_setClaimed i st) = true /\
  hasClaimed i st = Z.testbit (word (claimedBitMap st) (i / 256)) (i mod 256) /\
  (forall w b, 0 <= b -> (w, b) <> (i / 256, i mod 256) ->
     Z.testbit (word (claimedBitMap (_setClaimed i st)) w) b =
     Z.testbit (word (claimedBitMap st) w) b).
Proof.
  intros Hij. repeat split.
  - rewrite hasClaimed_setClaimed, bool_decide_eq_false_2 by done.
    apply orb_false_r.
  - rewrite hasClaimed_setClaimed, bool_decide_eq_true_2 by done.
    apply orb_true_r.
  - apply hasClaimed_testbit.
  - intros w b Hb Hne. rewrite setClaimed_bits by exact Hb.
    rewrite bool_decide_eq_false_2; [apply orb_false_r|].
    intros [-> ->]. done.
Qed.

(** C8: batchClaim is a loop over its argument.  For an array of claim
    records (a calldata array, so shorter than 2^256), batchClaim(claims)
    returns exactly what calling claim(claims[0]), claim(claims[1]), ...,
    claim(claims[n-1]) in array order returns, each call running on the
    state the one before it left: the same final state, event log included,
    or the same revert.  When the batch succeeds, that state is also the one
    the same claims reach when each is sent as a transaction of its own. *)
Theorem batchClaim_is_sequential_claims (cs : list Claim) (st : State) :
  Z.of_nat (length cs) < 2 ^ 256 ->
  batchClaim cs st = claim_sequentially cs st /\
  (forall st', batchClaim cs st = Ok st' -> run (CallClaim <$> cs) st = st').
Proof.
  intros Hlen.
  assert (batchClaim cs st = claim_sequentially cs st) as Heq.
  { unfold batchClaim. rewrite batchClaim_loop_eq by (cbn; lia).
    change (Z.to_nat 0) with 0%nat. by rewrite drop_0. }
  split; [exact Heq|].
  intros st' Hok. rewrite Heq in Hok. by apply claim_sequentially_run.
Qed.

(** C9: batchClaim is atomic.  If some element of the array fails (its
    index is already claimed, or its Merkle proof is invalid, or its claim
    reverts in the state the elements before it leave), the whole batch
    reverts and the state, bitmap and token ledger included, is what it
    was before the batch: nothing the earlier elements did is kept. *)
Theorem batchClaim_atomic (cs : list Claim) (st : State) :
  (exists k c,
      cs !! k = Some c /\
      (hasClaimed (index c) st = true \/
       leaf_verifies c st = false \/
       exists stk, claim_sequentially (take k cs) st = Ok stk /\
                   reverts (claim c stk))) ->
  reverts (batchClaim cs st) /\
  commit (batchClaim cs) st = st /\
  claimedBitMap (commit (batchClaim cs) st) = claimedBitMap st /\
  tokenLedger (commit (batchClaim cs) st) = tokenLedger st.
Proof.
  intros (k & c & Hk & Hfail).
  assert (reverts (claim_sequentially cs st)) as Hseq.
  { destruct (claim_sequentially (take k cs) st) as [stk|reason] eqn:Hpre.
    2:{ apply (claim_sequentially_prefix cs k). rewrite Hpre. by exists reason. }
    apply (claim_sequentially_fails_at cs k c st stk Hk Hpre).
    destruct Hfail as [Hc|[Hv|(stk' & Heq & Hrev)]].
    - eexists. apply claim_already_claimed.
      eapply claim_sequentially_mono; eauto.
    - assert (leaf_verifies c stk = false) as Hv'.
      { unfold leaf_verifies in *.
        by rewrite (claim_sequentially_merkleRoot _ _ _ Hpre). }
      destruct (hasClaimed (index c) stk) eqn:Hc.
      + eexists. by apply claim_already_claimed.
      + eexists. by apply claim_invalid_proof.
    - by injection Heq as <-. }
  assert (reverts (batchClaim cs st)) as Hrev.
  { apply not_Ok_reverts. intros st' Hok.
    apply batchClaim_loop_Ok in Hok; [|lia].
    change (Z.to_nat 0) with 0%nat in Hok. rewrite drop_0 in Hok.
    destruct Hseq as [reason Hseq]. congruence. }
  pose proof (commit_reverts (batchClaim cs) st Hrev) as Hc.
  rewrite Hc. done.
Qed.

End PayoutFacts.

(** *** The claims on the concrete deployment *)

Section PayoutExamples.
Import Payout Evm.
Local Abbreviation E := (env this).

(** The hash function is Keccak-256: the digests of the empty string and
    of "abc". *)
Lemma keccak256_test_vectors :
  Keccak.keccak256 [] =
    0xc5d2460186f7233c927e7db2dcc703c0e500b653ca82273b7bfad8045d85a470 /\
  Keccak.keccak256 [0x61; 0x62; 0x63] =
    0x4e03657aea45a94fc7d47ba826c8d667c0d1e6e33a64a036ec44f58fa12d6c45.
Proof. vm_compute. split; reflexivity. Qed.

(** On the funded contract the claim of leaf 0 goes through: the bit is
    set, 100 tokens move from the contract to the payee, and the event is
    logged. *)
Lemma claim_funded_pays :
  hasClaimed (env := E) 0 after_claim0 = true /\
  balanceOf (tokenLedger after_claim0) alice = 100 /\
  balanceOf (tokenLedger after_claim0) this = 900 /\
  events after_claim0 = [Claimed 0 alice 100].
Proof. vm_compute. repeat split. Qed.

(** C1 as stated fails: on a contract that holds no tokens, leaf 0 is
    unclaimed and its proof verifies against the root, yet [claim] reverts
    inside the token transfer. *)
Lemma claim_unfunded_reverts :
  hasClaimed (env := E) (index claim0) unfunded = false /\
  leaf_verifies (env := E) claim0 unfunded = true /\
  claim (env := E) claim0 unfunded = Revert "ERC20: transfer amount exceeds balance".
Proof. vm_compute. repeat split. Qed.

Lemma hasClaimed_monotonic_witness :
  hasClaimed (env := E) 0 after_claim0 = true /\
  hasClaimed (env := E) 0
    (run (env := E)
         [CallBatchClaim [claim0; claim1]; CallClaim claim1; CallClaim forged]
         after_claim0) = true.
Proof.
  split; [vm_compute; reflexivity|].
  apply (hasClaimed_monotonic (env := E)). vm_compute. reflexivity.
Defined.

Lemma claim_already_claimed_reverts_witness :
  hasClaimed (env := E) (index claim0) after_claim0 = true /\
  claim (env := E) claim0 after_claim0 =
    Revert "MerkleGrantRoundPayout: Funds already claimed" /\
  commit (claim (env := E) claim0) after_claim0 = after_claim0.
Proof.
  split; [vm_compute; reflexivity|].
  destruct (claim_already_claimed_reverts (env := E) claim0 after_claim0)
    as (H1 & H2 & _); [vm_compute; reflexivity|].
  exact (conj H1 H2).
Defined.

Lemma setClaimed_packed_witness :
  (255 : Z) <> 256 /\
  hasClaimed (env := E) 256 (_setClaimed (env := E) 255 after_claim0) =
    hasClaimed (env := E) 256 after_claim0 /\
  hasClaimed (env := E) 255 (_setClaimed (env := E) 255 after_claim0) = true.
Proof.
  split; [lia|].
  destruct (setClaimed_packed (env := E) 255 256 after_claim0) as (H1 & H2 & _);
    [lia|].
  exact (conj H1 H2).
Defined.

Lemma batchClaim_is_sequential_claims_witness :
  Z.of_nat (length [claim0; claim1]) < 2 ^ 256 /\
  batchClaim (env := E) [claim0; claim1] funded =
    claim_sequentially (env := E) [claim0; claim1] funded.
Proof.
  split; [vm_compute; reflexivity|].
  destruct (batchClaim_is_sequential_claims (env := E) [claim0; claim1] funded)
    as [H _]; [vm_compute; reflexivity | exact H].
Defined.

Lemma batchClaim_atomic_witness :
  [claim1; forged] !! 1%nat = Some forged /\
  leaf_verifies (env := E) forged funded = false /\
  succeeds (claim (env := E) claim1 funded) /\
  reverts (batchClaim (env := E) [claim1; forged] funded) /\
  commit (batchClaim (env := E) [claim1; forged]) funded = funded.
Proof.
  split; [reflexivity|].
  split; [vm_compute; reflexivity|].
  split; [eexists; vm_compute; reflexivity|].
  destruct (batchClaim_atomic (env := E) [claim1; forged] funded) as (H1 & H2 & _).
  { exists 1%nat, forged. split; [reflexivity|].
    right; left. vm_compute. reflexivity. }
  exact (conj H1 H2).
Defined.

End PayoutExamples.

(** ** Facts about the grant data layer *)

Section DataLayerFacts.
Import Grants.
Context `{cfg : Config}.

Lemma assign_each_app (W1 W2 : list Grant) (m : gmap Z Grant) :
  assign_each (W1 ++ W2) m = assign_each W2 (assign_each W1 m).
Proof. unfold assign_each. apply fold_left_app. Qed.

Lemma subgraph_forEach_written (grants : list GrantSubgraph) :
  forall m : gmap Z Grant,
    (subgraph_forEach grants m).1 = assign_each (subgraph_written grants) m /\
    (subgraph_forEach grants m).2 = (subgraph_forEach grants ∅).2.
Proof.
  induction grants as [|grant rest IH]; intros m; cbn; [done|].
  destruct (subgraph_grant grant) as [g|]; cbn; [|done].
  destruct (IH (<[id g := g]> m)) as [IH1 IH2].
  destruct (IH (<[id g := g]> ∅)) as [_ IH3].
  rewrite IH1, IH2, IH3. done.
Qed.

Lemma latest_write_snoc (k : Z) (m : gmap Z Grant) (W : list Grant) (g : Grant) :
  latest_write k m (W ++ [g]) =
  if decide (id g = k) then Some g else latest_write k m W.
Proof.
  unfold latest_write, seen.
  rewrite filter_app, filter_cons, filter_nil.
  destruct (decide (id g = k)).
  - by rewrite app_assoc, last_snoc.
  - by rewrite app_nil_r.
Qed.

Lemma latest_write_nil (k : Z) (m : gmap Z Grant) : latest_write k m [] = m !! k.
Proof.
  unfold latest_write, seen. rewrite filter_nil, app_nil_r.
  by destruct (m !! k).
Qed.

(** Assigning the records one after the other leaves, for every id, the
    last record written for it, or the cached one when none was. *)
Lemma assign_each_lookup (W : list Grant) (m : gmap Z Grant) (k : Z) :
  assign_each W m !! k = latest_write k m W.
Proof.
  induction W as [|g W IH] using rev_ind.
  - by rewrite latest_write_nil.
  - rewrite assign_each_app, latest_write_snoc. cbn.
    destruct (decide (id g = k)) as [<-|Hne].
    + apply lookup_insert_eq.
    + by rewrite lookup_insert_ne.
Qed.

(** In a list whose keys never decrease, the last element has the
    greatest key. *)
Lemma last_of_sorted {A : Type} (f : A -> Z) (l : list A) (x : A) :
  Sorted Z.le (f <$> l) -> x ∈ l ->
  exists r, last l = Some r /\ f x <= f r.
Proof.
  intros Hs. apply Sorted_StronglySorted in Hs; [|intros ???; lia].
  revert x. induction l as [|a l IH]; intros x Hx; [by apply elem_of_nil in Hx|].
  cbn in Hs. apply StronglySorted_inv in Hs as [Hs Hall].
  destruct l as [|b l].
  - apply list_elem_of_singleton in Hx as ->. exists a. split; [done|lia].
  - apply elem_of_cons in Hx as [->|Hx].
    + destruct (IH Hs b) as (r & Hr & _); [left|].
      exists r. split; [exact Hr|].
      rewrite Forall_forall in Hall. apply Hall.
      apply list_elem_of_fmap_2. eapply last_Some_elem_of. exact Hr.
    + destruct (IH Hs x Hx) as (r & Hr & Hle). by exists r.
Qed.

(** The [_lsGrants] a run leaves is the cache with the written records
    assigned in order. *)
Lemma getAllGrants_assigns (net : Network) (latest : Z) (force : bool)
    (cache : option LocalForageData) (sent : list Request) (out : Synced) :
  getAllGrants net latest force cache = (sent, Ok out) ->
  _lsGrants out = assign_each (written net latest force cache) (cached_grants cache).
Proof.
  unfold getAllGrants, written. fold (cached_grants cache).
  destruct (_ || _ || _); [|intros [= _ <-]; done].
  set (fromBlock := if _ =? 0 then _ else _).
  destruct (truthy SUBGRAPH_URL) as [url|].
  - destruct (recursiveGraphFetch net url fromBlock) as [grants|].
    + pose proof (subgraph_forEach_written grants (cached_grants cache)) as [H1 H2].
      destruct (subgraph_forEach grants (cached_grants cache)) as [m completed].
      cbn in H1, H2. subst m. rewrite <- H2.
      destruct completed.
      * rewrite Z.ltb_irrefl. intros [= _ <-]. done.
      * destruct (fromBlock <? latest); [|intros [= _ <-]; done].
        destruct (batchFilterCall net GrantCreated fromBlock latest); [|done].
        destruct (batchFilterCall net GrantUpdated fromBlock latest); [|done].
        cbn [bind].
        destruct (map_throwing _ _); [|done].
        intros [= _ <-]. cbn. by rewrite assign_each_app.
    + destruct (fromBlock <? latest); [|intros [= _ <-]; done].
      destruct (batchFilterCall net GrantCreated fromBlock latest); [|done].
      destruct (batchFilterCall net GrantUpdated fromBlock latest); [|done].
      cbn [bind].
      destruct (map_throwing _ _); [|done].
      intros [= _ <-]. done.
  - destruct (fromBlock <? latest); [|intros [= _ <-]; done].
    destruct (batchFilterCall net GrantCreated fromBlock latest); [|done].
    destruct (batchFilterCall net GrantUpdated fromBlock latest); [|done].
    cbn [bind].
    destruct (map_throwing _ _); [|done].
    intros [= _ <-]. done.
Qed.

(** Which requests a refresh sends.  With the subgraph configured and
    answering, only the subgraph is asked; when it throws and more than one
    block is missing, the log is scanned for both events over
    [fromBlock, latestBlockNumber], the range the subgraph was asked from. *)
Lemma getAllGrants_requests (net : Network) (latest : Z) (force : bool)
    (cache : option LocalForageData) (url : string) :
  let _lsBlockNumber :=
    match cache with
    | Some d => default 0 (blockNumber d)
    | None => 0
    end in
  let fromBlock := if _lsBlockNumber =? 0 then START_BLOCK else _lsBlockNumber + 1 in
  truthy SUBGRAPH_URL = Some url ->
  force || negb (bool_decide (is_Some cache))
    || (bool_decide (is_Some cache) && (_lsBlockNumber <? latest)) = true ->
  (forall grants,
      recursiveGraphFetch net url fromBlock = Ok grants ->
      (subgraph_forEach grants (cached_grants cache)).2 = true ->
      getAllGrants net latest force cache =
        ([SubgraphQuery url fromBlock],
         Ok (hydrate (subgraph_forEach grants (cached_grants cache)).1))) /\
  (reverts (recursiveGraphFetch net url fromBlock) ->
   fromBlock < latest ->
   getAllGrants net latest force cache =
     ([SubgraphQuery url fromBlock;
       RpcScan GrantCreated fromBlock latest;
       RpcScan GrantUpdated fromBlock latest],
      let* newGrants := batchFilterCall net GrantCreated fromBlock latest in
      let* updatedGrants := batchFilterCall net GrantUpdated fromBlock latest in
      let* mapped := map_throwing (event_grant (cached_grants cache))
                                  (newGrants ++ updatedGrants) in
      Ok (hydrate (assign_each mapped (cached_grants cache))))) /\
  (reverts (recursiveGraphFetch net url fromBlock) ->
   latest <= fromBlock ->
   getAllGrants net latest force cache =
     ([SubgraphQuery url fromBlock], Ok (hydrate (cached_grants cache)))).
Proof.
  intros _lsBlockNumber fromBlock Hurl Hrefresh.
  unfold getAllGrants. fold (cached_grants cache).
  fold _lsBlockNumber. rewrite Hrefresh. fold fromBlock. rewrite Hurl.
  repeat split.
  - intros grants -> Hdone.
    destruct (subgraph_forEach grants (cached_grants cache)) as [m completed].
    cbn in Hdone. subst completed. by rewrite Z.ltb_irrefl.
  - intros [reason ->] Hlt.
    by rewrite (proj2 (Z.ltb_lt _ _) Hlt).
  - intros [reason ->] Hge.
    by rewrite (proj2 (Z.ltb_ge _ _) Hge).
Qed.


(** Two BigNumber objects are never strictly equal, whatever they hold:
    on them the comparison is false even for equal protocols and pointers. *)
Lemma areMetaPtrsEqual_distinct_objects (r r' : positive) (v : Z) (p : string) :
  r <> r' ->
  areMetaPtrsEqual {| protocol := JSBigNumber r v; pointer := p |}
                   {| protocol := JSBigNumber r' v; pointer := p |} = Ok false.
Proof.
  intros Hr. unfold areMetaPtrsEqual. cbn.
  rewrite (proj2 (Pos.eqb_neq r r') Hr). by rewrite andb_false_r.
Qed.

(** *** The claims about the data layer *)

(** C4, as the code has it: the mapping [getAllGrants] leaves associates
    each grant id with the record written for it last, in the order the
    code assigns them (the cached record, then the subgraph's records, then
    the GrantCreated and the GrantUpdated events of the log scan); no
    timestamps are compared.  That is the record with the greatest
    lastUpdated among the records seen for the id whenever those records
    come in non-decreasing lastUpdated order. *)
Theorem getAllGrants_last_write_wins (net : Network) (latest : Z) (force : bool)
    (cache : option LocalForageData) (sent : list Request) (out : Synced) (k : Z) :
  getAllGrants net latest force cache = (sent, Ok out) ->
  let records := seen k (cached_grants cache) (written net latest force cache) in
  _lsGrants out !! k = last records /\
  (Sorted Z.le (lastUpdated <$> records) ->
   forall r', r' ∈ records ->
     exists r, _lsGrants out !! k = Some r /\ lastUpdated r' <= lastUpdated r).
Proof.
  intros Hrun records.
  assert (_lsGrants out !! k = last records) as Hlast.
  { rewrite (getAllGrants_assigns _ _ _ _ _ _ Hrun). apply assign_each_lookup. }
  split; [exact Hlast|].
  intros Hsorted r' Hr'. rewrite Hlast.
  by apply last_of_sorted.
Qed.

(** C6, as the code has it: with a whitelist URL configured,
    getApprovedGrants (1) on a fetch that delivers a whitelist with an entry
    for the current chain id stores it and keeps exactly the grants whose
    id is in that entry; (2) on a failed fetch (it threw, or the JSON is
    falsy) with a cached whitelist that has an entry for the chain id keeps
    exactly the grants whose id is in that entry, leaving the cache as it
    is; and (3) on a failed fetch with nothing cached throws. *)
Theorem getApprovedGrants_whitelist (fetched : Fetched) (storage : option Whitelist)
    (grants : list Grant) (whitelistUrl : string) :
  truthy VITE_GRANT_WHITELIST_URI = Some whitelistUrl ->
  (forall json ids,
      fetched = FetchJson (Some json) ->
      json !! DGRANTS_CHAIN_ID = Some ids ->
      getApprovedGrants fetched storage grants =
        (Some json,
         Ok {| approved_grants := filter (fun grant => id grant ∈ ids) grants;
               approvedGrantsPk := Some ids |})) /\
  (forall cached ids,
      fetch_failed fetched = true ->
      storage = Some cached ->
      cached !! DGRANTS_CHAIN_ID = Some ids ->
      getApprovedGrants fetched storage grants =
        (Some cached,
         Ok {| approved_grants := filter (fun grant => id grant ∈ ids) grants;
               approvedGrantsPk := Some ids |})) /\
  (fetch_failed fetched = true ->
   storage = None ->
   getApprovedGrants fetched storage grants =
     (None, Revert "Failed to load whitelist and couldn't find a cached")).
Proof.
  intros Hurl.
  assert (forall wl ids, wl !! DGRANTS_CHAIN_ID = Some ids ->
            filterWhiteListed grants wl =
            Ok (filter (fun grant => id grant ∈ ids) grants)) as Hfilter.
  { intros wl ids Hids. unfold filterWhiteListed. rewrite Hids.
    by destruct grants. }
  unfold getApprovedGrants. rewrite Hurl. repeat split.
  - intros json ids -> Hids. by rewrite (Hfilter _ _ Hids), Hids.
  - intros cached ids Hfail -> Hids.
    assert (fallback grants (Some cached) =
            Ok {| approved_grants := filter (fun grant => id grant ∈ ids) grants;
                  approvedGrantsPk := Some ids |}) as Hfb.
    { unfold fallback. by rewrite (Hfilter _ _ Hids), Hids. }
    destruct fetched as [reason|[json|]]; [|discriminate|]; by rewrite Hfb.
  - intros Hfail ->.
    destruct fetched as [reason|[json|]]; [|discriminate|]; done.
Qed.


End DataLayerFacts.

(** *** The claims on the sample data *)

Section DataLayerExamples.
Import Grants Sample.

(** C4 as stated fails: grant 7 is cached with lastUpdated 100, the
    subgraph answers with a record of grant 7 whose lastUpdated is 50, and
    the mapping ends up with the subgraph's record, not with the one whose
    lastUpdated is greatest. *)
Lemma getAllGrants_keeps_older_record :
  cached7 ∈ seen 7 {[ 7 := cached7 ]}
    (written (cfg := cfg) (net_subgraph 50) 20 false (Some (cache_at 10 {[ 7 := cached7 ]}))) /\
  synced_grant
    (getAllGrants (cfg := cfg) (net_subgraph 50) 20 false
       (Some (cache_at 10 {[ 7 := cached7 ]}))) 7 = Some (indexed7 50) /\
  lastUpdated (indexed7 50) < lastUpdated cached7.
Proof. split; [|split]; [|vm_compute; reflexivity..]. left. Qed.

Lemma getAllGrants_last_write_wins_witness :
  getAllGrants (cfg := cfg) (net_subgraph 150) 20 false
    (Some (cache_at 10 {[ 7 := cached7 ]})) =
    ([SubgraphQuery url 11], Ok (hydrate {[ 7 := indexed7 150 ]})) /\
  ({[ 7 := indexed7 150 ]} : gmap Z Grant) !! 7 = Some (indexed7 150) /\
  lastUpdated cached7 <= lastUpdated (indexed7 150).
Proof.
  split; [vm_compute; reflexivity|].
  destruct (getAllGrants_last_write_wins (cfg := cfg) (net_subgraph 150) 20 false
              (Some (cache_at 10 {[ 7 := cached7 ]}))
              [SubgraphQuery url 11] (hydrate {[ 7 := indexed7 150 ]}) 7)
    as [Hlast Hmax]; [vm_compute; reflexivity|].
  destruct (Hmax) with (r' := cached7) as (r & Hr & Hle).
  - vm_compute. repeat constructor; discriminate.
  - left.
  - cbn in Hr. rewrite lookup_singleton_eq in Hr. injection Hr as <-.
    split; [apply lookup_singleton_eq | exact Hle].
Defined.

(** C5 at the boundary: the cache is at block 9, the chain at block 10,
    and the subgraph throws.  The log has a GrantCreated entry in
    [10, 10], yet no scan is sent and grant 3 is not merged; one block
    earlier the same failure is followed by the scan. *)
Lemma getAllGrants_no_fallback_for_one_block :
  batchFilterCall net_subgraph_down GrantCreated 10 10 = Ok [created3] /\
  getAllGrants (cfg := cfg) net_subgraph_down 10 false (Some (cache_at 9 ∅)) =
    ([SubgraphQuery url 10], Ok (hydrate ∅)) /\
  getAllGrants (cfg := cfg) net_subgraph_down 10 false (Some (cache_at 8 ∅)) =
    ([SubgraphQuery url 9; RpcScan GrantCreated 9 10; RpcScan GrantUpdated 9 10],
     Ok (hydrate {[ 3 := grant3 ]})).
Proof. vm_compute. repeat split. Qed.

Lemma getApprovedGrants_whitelist_witness :
  getApprovedGrants (cfg := cfg) (FetchJson (Some whitelist_new)) (Some whitelist_old)
    [cached7; grant3] =
    (Some whitelist_new,
     Ok {| approved_grants := [cached7]; approvedGrantsPk := Some [7; 9] |}) /\
  getApprovedGrants (cfg := cfg) (FetchThrows "Failed to fetch") (Some whitelist_old)
    [cached7; grant3] =
    (Some whitelist_old,
     Ok {| approved_grants := [grant3]; approvedGrantsPk := Some [3] |}) /\
  getApprovedGrants (cfg := cfg) (FetchThrows "Failed to fetch") None [cached7; grant3] =
    (None, Revert "Failed to load whitelist and couldn't find a cached").
Proof.
  destruct (getApprovedGrants_whitelist (cfg := cfg) (FetchJson (Some whitelist_new))
              (Some whitelist_old) [cached7; grant3]
              "https://whitelist.example/grants.json" eq_refl) as (H1 & _ & _).
  destruct (getApprovedGrants_whitelist (cfg := cfg) (FetchThrows "Failed to fetch")
              (Some whitelist_old) [cached7; grant3]
              "https://whitelist.example/grants.json" eq_refl) as (_ & H2 & _).
  destruct (getApprovedGrants_whitelist (cfg := cfg) (FetchThrows "Failed to fetch")
              None [cached7; grant3]
              "https://whitelist.example/grants.json" eq_refl) as (_ & _ & H3).
  split; [|split].
  - exact (H1 whitelist_new [7; 9] eq_refl eq_refl).
  - exact (H2 whitelist_old [3] eq_refl eq_refl eq_refl).
  - exact (H3 eq_refl eq_refl).
Defined.


End DataLayerExamples.

(** ** More about the payout contract: histories, batches, the bitmap *)

Section PayoutHistory.
Import Payout.
Context `{env : Env}.

Lemma claim_Ok_events (c : Claim) (st st' : State) :
  claim c st = Ok st' ->
  events st' = events st ++ [claimed_event c] /\
  safeTransfer (tokenLedger st) (payee c) (amount c) = Ok (tokenLedger st').
Proof.
  intros Hok. by apply claim_Ok_inv in Hok as (_ & _ & l & Hl & ->).
Qed.

Lemma replay_app (evs1 evs2 : list Event) :
  forall ledger : Ledger,
    replay (evs1 ++ evs2) ledger = bind (replay evs1 ledger) (replay evs2).
Proof.
  induction evs1 as [|[i p a] evs1 IH]; intros ledger; cbn; [done|].
  destruct (safeTransfer ledger p a); cbn [bind]; [apply IH | done].
Qed.

(** What a sequence of calls that all succeed has done. *)
Lemma claim_sequentially_Ok (cs : list Claim) :
  forall st st' : State,
    claim_sequentially cs st = Ok st' ->
    events st' = events st ++ (claimed_event <$> cs) /\
    replay (claimed_event <$> cs) (tokenLedger st) = Ok (tokenLedger st') /\
    (forall j, hasClaimed j st' = hasClaimed j st || bool_decide (j ∈ index <$> cs)) /\
    NoDup (index <$> cs) /\
    Forall (fun c => hasClaimed (index c) st = false /\ leaf_verifies c st = true) cs.
Proof.
  induction cs as [|c cs IH]; intros st st' Hok; cbn in Hok.
  - injection Hok as <-. cbn. rewrite app_nil_r. repeat split; try done.
    + intros j. rewrite bool_decide_eq_false_2; [by rewrite orb_false_r|].
      apply not_elem_of_nil.
    + constructor.
  - destruct (claim c st) as [st1|] eqn:Hc; cbn [bind] in Hok; [|discriminate].
    destruct (IH _ _ Hok) as (Hev & Hpay & Hbits & Hnd & Hall).
    destruct (claim_Ok_events _ _ _ Hc) as [Hev1 Hpay1].
    pose proof (claim_Ok_inv _ _ _ Hc) as (Hfree & Hproof & l & _ & Hst1).
    assert (forall j, hasClaimed j st1 = hasClaimed j st || bool_decide (index c = j))
      as Hbits1.
    { intros j. rewrite Hst1. apply hasClaimed_claimed_state. }
    repeat split.
    + rewrite Hev, Hev1, <- app_assoc. done.
    + cbn. rewrite Hpay1. cbn [bind]. exact Hpay.
    + intros j. rewrite Hbits, Hbits1, <- orb_assoc. f_equal.
      rewrite fmap_cons.
      destruct (decide (index c = j)) as [<-|Hne].
      * rewrite bool_decide_eq_true_2 by done.
        rewrite (bool_decide_eq_true_2 (_ ∈ _ :: _)) by left. done.
      * rewrite (bool_decide_eq_false_2 (index c = j)) by done. cbn.
        apply bool_decide_ext. rewrite elem_of_cons.
        split; [by right | by intros [?|?]].
    + rewrite fmap_cons. constructor; [|exact Hnd].
      intros (c' & Hidx & Hc')%list_elem_of_fmap.
      rewrite Forall_forall in Hall. destruct (Hall _ Hc') as [Hfree' _].
      rewrite Hbits1, Hidx, bool_decide_eq_true_2, orb_true_r in Hfree' by done.
      discriminate.
    + constructor; [done|].
      rewrite Forall_forall in Hall |- *. intros c' Hc'.
      destruct (Hall _ Hc') as [Hfree' Hproof']. split.
      * rewrite Hbits1 in Hfree'. by apply orb_false_iff in Hfree' as [? _].
      * unfold leaf_verifies in *. by rewrite <- (claim_merkleRoot _ _ _ Hc).
Qed.

Lemma batchClaim_Ok_sequential (cs : list Claim) (st st' : State) :
  batchClaim cs st = Ok st' -> claim_sequentially cs st = Ok st'.
Proof.
  intros Hok. apply batchClaim_loop_Ok in Hok; [|lia].
  change (Z.to_nat 0) with 0%nat in Hok. by rewrite drop_0 in Hok.
Qed.

(** A transaction that went through is a sequence of successful calls. *)
Lemma call_Ok_sequential (op : Call) (st st' : State) :
  call op st = Ok st' ->
  exists cs, claim_sequentially cs st = Ok st'.
Proof.
  destruct op as [c|cs]; cbn [call]; intros Hok.
  - exists [c]. cbn. by rewrite Hok.
  - exists cs. by apply batchClaim_Ok_sequential.
Qed.

Lemma claim_sequentially_log_matches (cs : list Claim) (st st' : State) :
  claim_sequentially cs st = Ok st' ->
  log_matches_bitmap st -> log_matches_bitmap st'.
Proof.
  intros Hok [Hiff Hnd].
  destruct (claim_sequentially_Ok _ _ _ Hok) as (Hev & _ & Hbits & Hndcs & Hall).
  assert (event_index <$> events st' = (event_index <$> events st) ++ (index <$> cs))
    as Hidx.
  { rewrite Hev, fmap_app. f_equal. rewrite <- list_fmap_compose.
    by apply list_fmap_ext. }
  split.
  - intros i. rewrite Hidx, elem_of_app, Hbits, orb_true_iff, bool_decide_eq_true.
    by rewrite Hiff.
  - rewrite Hidx. apply NoDup_app. repeat split; [exact Hnd| |exact Hndcs].
    intros i Hi (c & -> & Hc)%list_elem_of_fmap.
    rewrite Forall_forall in Hall. destruct (Hall _ Hc) as [Hfree _].
    apply Hiff in Hi. congruence.
Qed.

Lemma transact_log_matches (op : Call) (st : State) :
  log_matches_bitmap st -> log_matches_bitmap (transact st op).
Proof.
  intros Hinv. unfold transact, commit.
  destruct (call op st) as [st'|] eqn:Hcall; [|exact Hinv].
  destruct (call_Ok_sequential _ _ _ Hcall) as [cs Hcs].
  by eapply claim_sequentially_log_matches.
Qed.

Lemma run_log_matches (ops : list Call) :
  forall st : State, log_matches_bitmap st -> log_matches_bitmap (run ops st).
Proof.
  induction ops as [|op ops IH]; intros st Hinv; cbn; [exact Hinv|].
  apply IH. by apply transact_log_matches.
Qed.

Lemma run_merkleRoot (ops : list Call) :
  forall st : State, merkleRoot (run ops st) = merkleRoot st.
Proof.
  induction ops as [|op ops IH]; intros st; [done|].
  change (run (op :: ops) st) with (run ops (transact st op)).
  rewrite IH. unfold transact, commit.
  destruct (call op st) as [st'|] eqn:Hcall; [|done].
  destruct (call_Ok_sequential _ _ _ Hcall) as [cs Hcs].
  by eapply claim_sequentially_merkleRoot.
Qed.

Lemma hasClaimed_constructor (i : Z) (token : Ledger) (root : bytes32) :
  hasClaimed i (constructor token root) = false.
Proof.
  rewrite hasClaimed_testbit. unfold constructor, word; cbn.
  rewrite lookup_empty. apply Z.bits_0.
Qed.

Lemma transact_replay (op : Call) (st : State) :
  exists new,
    events (transact st op) = events st ++ new /\
    replay new (tokenLedger st) = Ok (tokenLedger (transact st op)).
Proof.
  unfold transact, commit.
  destruct (call op st) as [st'|] eqn:Hcall.
  - destruct (call_Ok_sequential _ _ _ Hcall) as [cs Hcs].
    destruct (claim_sequentially_Ok _ _ _ Hcs) as (Hev & Hpay & _).
    by exists (claimed_event <$> cs).
  - exists []. by rewrite app_nil_r.
Qed.

Lemma claim_sequentially_reason (cs : list Claim) :
  forall (k : nat) (c : Claim) (st stk : State) (reason : string),
    cs !! k = Some c ->
    claim_sequentially (take k cs) st = Ok stk ->
    claim c stk = Revert reason ->
    claim_sequentially cs st = Revert reason.
Proof.
  induction cs as [|c0 cs IH]; intros k c st stk reason Hk Hpre Hfail; [done|].
  destruct k as [|k]; cbn in *.
  - injection Hk as ->. injection Hpre as ->. by rewrite Hfail.
  - destruct (claim c0 st) as [st1|]; cbn [bind] in *; [|discriminate].
    eapply IH; eauto.
Qed.

Lemma lor_uint256 (a b : Z) :
  0 <= a < 2 ^ 256 -> 0 <= b < 2 ^ 256 -> 0 <= Z.lor a b < 2 ^ 256.
Proof.
  intros Ha Hb. split; [apply Z.lor_nonneg; lia|].
  destruct (Z.eq_dec (Z.lor a b) 0) as [->|Hnz]; [lia|].
  apply Z.log2_lt_pow2; [pose proof (proj2 (Z.lor_nonneg a b)); lia|].
  rewrite Z.log2_lor by lia.
  destruct (Z.eq_dec a 0) as [->|Ha0]; destruct (Z.eq_dec b 0) as [->|Hb0].
  - cbn. lia.
  - rewrite Z.max_r by (cbn; apply Z.log2_nonneg). apply Z.log2_lt_pow2; lia.
  - rewrite Z.max_l by (cbn; apply Z.log2_nonneg). apply Z.log2_lt_pow2; lia.
  - apply Z.max_lub_lt; apply Z.log2_lt_pow2; lia.
Qed.

Lemma setClaimed_words (i : Z) (st : State) :
  words_are_uint256 st -> words_are_uint256 (_setClaimed i st).
Proof.
  intros Hinv w. unfold _setClaimed, word; cbn [claimedBitMap].
  destruct (decide (i / 256 = w)) as [<-|Hne].
  - rewrite lookup_insert_eq. apply lor_uint256; [apply Hinv|].
    apply Z.mod_pos_bound. lia.
  - rewrite lookup_insert_ne by done. apply Hinv.
Qed.

Lemma claim_sequentially_words (cs : list Claim) :
  forall st st' : State,
    claim_sequentially cs st = Ok st' ->
    words_are_uint256 st -> words_are_uint256 st'.
Proof.
  induction cs as [|c cs IH]; intros st st' Hok Hinv; cbn in Hok.
  - by injection Hok as <-.
  - destruct (claim c st) as [st1|] eqn:Hc; cbn [bind] in Hok; [|discriminate].
    apply (IH _ _ Hok).
    apply claim_Ok_inv in Hc as (_ & _ & l & _ & ->).
    intros w. apply (setClaimed_words (index c) st Hinv w).
Qed.

Lemma run_words (ops : list Call) :
  forall st : State, words_are_uint256 st -> words_are_uint256 (run ops st).
Proof.
  induction ops as [|op ops IH]; intros st Hinv; [exact Hinv|].
  change (run (op :: ops) st) with (run ops (transact st op)).
  apply IH. unfold transact, commit.
  destruct (call op st) as [st'|] eqn:Hcall; [|exact Hinv].
  destruct (call_Ok_sequential _ _ _ Hcall) as [cs Hcs].
  by eapply claim_sequentially_words.
Qed.

(** *** Properties *)

(** X1: from deployment on, the log and the bitmap agree and no leaf is
    paid twice.  After any sequence of claim and batchClaim transactions on
    a freshly constructed contract, hasClaimed(i) is true exactly when the
    log holds a Claimed event for index i, no two Claimed events have the
    same index, and merkleRoot is the root given to the constructor. *)
Theorem deployment_pays_each_index_once (token : Ledger) (root : bytes32)
    (ops : list Call) :
  (forall i, hasClaimed i (run ops (constructor token root)) = true <->
             i ∈ event_index <$> events (run ops (constructor token root))) /\
  NoDup (event_index <$> events (run ops (constructor token root))) /\
  merkleRoot (run ops (constructor token root)) = root.
Proof.
  assert (log_matches_bitmap (constructor token root)) as Hinit.
  { split; [|constructor].
    intros i. rewrite hasClaimed_constructor. cbn. split; [done|].
    by intros ?%elem_of_nil. }
  destruct (run_log_matches ops _ Hinit) as [Hiff Hnd].
  repeat split; try apply Hiff; [exact Hnd|].
  by rewrite run_merkleRoot.
Qed.

(** X2: the token ledger moves only as the log says.  After any sequence of
    transactions, the events appended to the log are exactly the transfers
    that were made: replaying them in order on the ledger the sequence
    started from succeeds and gives the ledger it ended with. *)
Theorem ledger_is_replay_of_log (ops : list Call) (st : State) :
  exists new,
    events (run ops st) = events st ++ new /\
    replay new (tokenLedger st) = Ok (tokenLedger (run ops st)).
Proof.
  revert st. induction ops as [|op ops IH]; intros st.
  - exists []. by rewrite app_nil_r.
  - change (run (op :: ops) st) with (run ops (transact st op)).
    destruct (transact_replay op st) as (new1 & Hev1 & Hpay1).
    destruct (IH (transact st op)) as (new2 & Hev2 & Hpay2).
    exists (new1 ++ new2). split.
    + by rewrite Hev2, Hev1, app_assoc.
    + by rewrite replay_app, Hpay1.
Qed.

(** X3: what a batch that went through has done.  If batchClaim(claims)
    succeeds, it appended one Claimed event per element in array order, the
    indices of the array are pairwise distinct, every element was unclaimed
    with a valid proof in the state before the batch, and afterwards exactly
    the array's indices are claimed besides those that were.  So an array
    that names an index twice always reverts. *)
Theorem batchClaim_success (cs : list Claim) (st st' : State) :
  batchClaim cs st = Ok st' ->
  events st' = events st ++ (claimed_event <$> cs) /\
  NoDup (index <$> cs) /\
  Forall (fun c => hasClaimed (index c) st = false /\ leaf_verifies c st = true) cs /\
  (forall j, hasClaimed j st' = hasClaimed j st || bool_decide (j ∈ index <$> cs)).
Proof.
  intros Hok%batchClaim_Ok_sequential.
  by destruct (claim_sequentially_Ok _ _ _ Hok) as (? & _ & ? & ? & ?).
Qed.

(** X4: a failing batch reverts with the error of its first failing
    element.  If the elements before position k succeed one after the other
    and claim reverts on element k with some reason, batchClaim reverts with
    that reason. *)
Theorem batchClaim_first_failure (cs : list Claim) (st stk : State)
    (k : nat) (c : Claim) (reason : string) :
  Z.of_nat (length cs) < 2 ^ 256 ->
  cs !! k = Some c ->
  claim_sequentially (take k cs) st = Ok stk ->
  claim c stk = Revert reason ->
  batchClaim cs st = Revert reason.
Proof.
  intros Hlen Hk Hpre Hfail. unfold batchClaim.
  rewrite batchClaim_loop_eq by (cbn; lia).
  change (Z.to_nat 0) with 0%nat. rewrite drop_0.
  by eapply claim_sequentially_reason.
Qed.

(** X5: a proof that does not verify.  Whatever the token and its funds,
    claim with a Merkle proof that does not verify reverts and changes
    nothing; the reason is "MerkleGrantRoundPayout: Invalid proof." unless
    the index is already claimed, which is checked first. *)
Theorem claim_invalid_proof_reverts (c : Claim) (st : State) :
  leaf_verifies c st = false ->
  claim c st =
    Revert (if hasClaimed (index c) st
            then "MerkleGrantRoundPayout: Funds already claimed"
            else "MerkleGrantRoundPayout: Invalid proof.") /\
  commit (claim c) st = st.
Proof.
  intros Hv.
  assert (claim c st =
          Revert (if hasClaimed (index c) st
                  then "MerkleGrantRoundPayout: Funds already claimed"
                  else "MerkleGrantRoundPayout: Invalid proof.")) as Hrev.
  { destruct (hasClaimed (index c) st) eqn:Hc.
    - by apply claim_already_claimed.
    - by apply claim_invalid_proof. }
  split; [exact Hrev|]. unfold commit. by rewrite Hrev.
Qed.

(** X6: the bitmap stays within uint256.  After any sequence of
    transactions on a freshly constructed contract every word of
    claimedBitMap is at least 0 and below 2^256, so the bitwise or in
    _setClaimed never needs to wrap. *)
Theorem deployment_words_are_uint256 (token : Ledger) (root : bytes32)
    (ops : list Call) (w : Z) :
  0 <= word (claimedBitMap (run ops (constructor token root))) w < 2 ^ 256.
Proof.
  apply run_words. intros w'. unfold constructor, word; cbn.
  rewrite lookup_empty. lia.
Qed.

(** X7: marking is idempotent and order-independent.  _setClaimed(i) twice
    is _setClaimed(i) once, and _setClaimed(i) after _setClaimed(j) leaves
    the same state as _setClaimed(j) after _setClaimed(i). *)
Theorem setClaimed_idempotent_commutative (i j : Z) (st : State) :
  _setClaimed i (_setClaimed i st) = _setClaimed i st /\
  _setClaimed i (_setClaimed j st) = _setClaimed j (_setClaimed i st).
Proof.
  split.
  - unfold _setClaimed, word; cbn [merkleRoot claimedBitMap tokenLedger events].
    f_equal. rewrite lookup_insert_eq, insert_insert_eq.
    f_equal. rewrite <- Z.lor_assoc. f_equal. apply Z.lor_diag.
  - unfold _setClaimed, word; cbn [merkleRoot claimedBitMap tokenLedger events].
    f_equal. destruct (decide (i / 256 = j / 256)) as [Heq|Hne].
    + rewrite Heq, !lookup_insert_eq, !insert_insert_eq. f_equal.
      rewrite <- !Z.lor_assoc. f_equal. apply Z.lor_comm.
    + rewrite !lookup_insert_ne by done. by apply insert_insert_ne.
Qed.

End PayoutHistory.

(** ** More about the grant data layer *)

Section DataLayerMore.
Import Grants.
Context `{cfg : Config}.

(** *** [Object.values] *)

Lemma Object_values_Permutation (m : gmap Z Grant) :
  Object_values m ≡ₚ (map_to_list m).*2.
Proof.
  unfold Object_values, by_key. apply fmap_Permutation.
  rewrite !merge_sort_Permutation. apply filter_app_complement.
Qed.

Lemma elem_of_Object_values (m : gmap Z Grant) (g : Grant) :
  g ∈ Object_values m <-> exists k, m !! k = Some g.
Proof.
  rewrite Object_values_Permutation, list_elem_of_fmap. split.
  - intros ([k g'] & -> & Hin). exists k. by apply elem_of_map_to_list.
  - intros [k Hk]. exists (k, g). split; [done|]. by apply elem_of_map_to_list.
Qed.

Lemma length_Object_values (m : gmap Z Grant) :
  length (Object_values m) = size m.
Proof.
  rewrite Object_values_Permutation, length_fmap. apply length_map_to_list.
Qed.

Lemma Object_values_keys (m : gmap Z Grant) :
  well_keyed m -> id <$> Object_values m ≡ₚ (map_to_list m).*1.
Proof.
  intros Hkeys. rewrite Object_values_Permutation, <- list_fmap_compose.
  assert (id ∘ snd <$> map_to_list m = (map_to_list m).*1) as ->; [|done].
  apply Forall_fmap_ext_1, Forall_forall. intros [k g] Hin. cbn.
  apply elem_of_map_to_list in Hin. by apply Hkeys.
Qed.

Lemma Object_values_ids_NoDup (m : gmap Z Grant) :
  well_keyed m -> NoDup (id <$> Object_values m).
Proof.
  intros Hkeys. rewrite (Object_values_keys m Hkeys). apply NoDup_fst_map_to_list.
Qed.

Lemma filter_all {A : Type} (P : A -> Prop) `{!forall x, Decision (P x)} (l : list A) :
  Forall P l -> filter P l = l /\ filter (fun x => ~ P x) l = [].
Proof.
  induction 1 as [|x l Hx _ [IH1 IH2]]; [done|].
  rewrite filter_cons_True, IH1 by done.
  rewrite filter_cons_False, IH2 by (by intros ?). done.
Qed.

(** When every key is an array index, the values come in ascending key
    order. *)
Lemma Object_values_ids_sorted (m : gmap Z Grant) :
  well_keyed m ->
  (forall k, is_Some (m !! k) -> array_index k) ->
  Sorted Z.le (id <$> Object_values m).
Proof.
  intros Hkeys Hindex. unfold Object_values.
  destruct (filter_all (fun entry : Z * Grant => array_index entry.1)
              (map_to_list m)) as [-> ->].
  { apply Forall_forall. intros [k g] Hin%elem_of_map_to_list. cbn.
    apply Hindex. by exists g. }
  change (by_key []) with (@nil (Z * Grant)). rewrite app_nil_r.
  set (l := by_key (map_to_list m)).
  assert (l ≡ₚ map_to_list m) as Hperm by apply merge_sort_Permutation.
  assert (id <$> l.*2 = l.*1) as ->.
  { rewrite <- list_fmap_compose. apply Forall_fmap_ext_1, Forall_forall.
    intros [k g] Hin. cbn. rewrite Hperm in Hin.
    apply elem_of_map_to_list in Hin. by apply Hkeys. }
  apply (Sorted_fmap fst (fun a b : Z * Grant => a.1 <= b.1) Z.le); [done|].
  apply Sorted_merge_sort. intros a b. lia.
Qed.

(** *** [getAllGrants] *)

Lemma assign_each_lookup_Some (W : list Grant) (m : gmap Z Grant) (k : Z) (g : Grant) :
  assign_each W m !! k = Some g ->
  m !! k = Some g \/ (g ∈ W /\ id g = k).
Proof.
  rewrite assign_each_lookup. unfold latest_write, seen.
  intros Hin%last_Some_elem_of. apply elem_of_app in Hin as [Hin|Hin].
  - left. destruct (m !! k); cbn in Hin; [|by apply elem_of_nil in Hin].
    by apply list_elem_of_singleton in Hin as ->.
  - right. by apply list_elem_of_filter in Hin as [? ?].
Qed.

Lemma assign_each_is_Some (W : list Grant) (m : gmap Z Grant) (k : Z) :
  is_Some (m !! k) -> is_Some (assign_each W m !! k).
Proof.
  intros [c Hc]. rewrite assign_each_lookup. unfold latest_write, seen.
  rewrite Hc. cbn. apply last_is_Some. done.
Qed.

Lemma assign_each_well_keyed (W : list Grant) (m : gmap Z Grant) :
  well_keyed m -> well_keyed (assign_each W m).
Proof.
  intros Hkeys k g [Hg|[_ Hid]]%assign_each_lookup_Some; [by apply Hkeys | done].
Qed.

Lemma event_grant_fields (m : gmap Z Grant) (tx : Event) (g : Grant) :
  event_grant m tx = Ok g ->
  bind (BigNumber_from (args_id tx)) toNumber = Ok (id g) /\
  getAddress (args_owner tx) = Ok (owner g) /\
  getAddress (args_payee tx) = Ok (payee g) /\
  metaPtr g = args_metaPtr tx /\
  lastUpdated g = args_time tx /\
  createdAt g = match m !! id g with
                | Some cached => createdAt cached
                | None => args_time tx
                end.
Proof.
  unfold event_grant.
  destruct (bind (BigNumber_from (args_id tx)) toNumber) as [k|]; [|done].
  destruct (getAddress (args_owner tx)) as [o|]; [|done].
  destruct (getAddress (args_payee tx)) as [p|]; [|done].
  cbn [bind]. by intros [= <-].
Qed.

(** Whether an event can be converted does not depend on the cache. *)
Lemma event_grant_reverts (m m' : gmap Z Grant) (tx : Event) :
  reverts (event_grant m tx) -> reverts (event_grant m' tx).
Proof.
  unfold event_grant.
  destruct (bind (BigNumber_from (args_id tx)) toNumber) as [k|]; [|done].
  destruct (getAddress (args_owner tx)) as [o|]; [|done].
  destruct (getAddress (args_payee tx)) as [p|]; [|done].
  cbn [bind]. intros [reason ?]. discriminate.
Qed.

Lemma map_throwing_Ok {A B : Type} (f : A -> result B) (l : list A) (bs : list B) :
  map_throwing f l = Ok bs -> Forall2 (fun a b => f a = Ok b) l bs.
Proof.
  revert bs. induction l as [|a l IH]; intros bs; cbn.
  - intros [= <-]. constructor.
  - destruct (f a) as [b|] eqn:Hfa; [|done]. cbn [bind].
    destruct (map_throwing f l) as [bs'|]; [|done]. cbn [bind].
    intros [= <-]. constructor; [done|]. by apply IH.
Qed.

Lemma map_throwing_reverts {A B : Type} (f : A -> result B) (l : list A) (a : A) :
  a ∈ l -> reverts (f a) -> reverts (map_throwing f l).
Proof.
  intros Hin Hrev. induction l as [|a' l IH]; [by apply elem_of_nil in Hin|].
  cbn. apply elem_of_cons in Hin as [<-|Hin].
  - destruct Hrev as [reason ->]. by exists reason.
  - destruct (f a') as [b|reason]; [|by exists reason]. cbn [bind].
    destruct (IH Hin) as [reason ->]. by exists reason.
Qed.

(** The subgraph loop stops at the first record that throws. *)
Lemma subgraph_forEach_stops (grants : list GrantSubgraph) :
  forall m : gmap Z Grant,
    (subgraph_forEach grants m).2 = false ->
    exists good bad rest,
      grants = good ++ bad :: rest /\
      reverts (subgraph_grant bad) /\
      map_throwing subgraph_grant good = Ok (subgraph_written grants).
Proof.
  induction grants as [|grant grants IH]; intros m; cbn; [done|].
  destruct (subgraph_grant grant) as [g|reason] eqn:Hg.
  - intros Hstop. destruct (IH _ Hstop) as (good & bad & rest & -> & Hbad & Hgood).
    exists (grant :: good), bad, rest. split; [done|]. split; [exact Hbad|].
    cbn. by rewrite Hg, Hgood.
  - intros _. exists [], grant, grants. split; [done|]. split; [|done].
    by exists reason.
Qed.

(** X8: getAllGrants never drops a grant and never invents one.  When it
    returns, every id that was cached is still in the mapping, and every
    record of the mapping is either the cached record of its id or one of
    the records written during the run, stored under its own id. *)
Theorem getAllGrants_keeps_cached (net : Network) (latest : Z) (force : bool)
    (cache : option LocalForageData) (sent : list Request) (out : Synced) :
  getAllGrants net latest force cache = (sent, Ok out) ->
  (forall k, is_Some (cached_grants cache !! k) -> is_Some (_lsGrants out !! k)) /\
  (forall k g, _lsGrants out !! k = Some g ->
     cached_grants cache !! k = Some g \/
     (g ∈ written net latest force cache /\ id g = k)).
Proof.
  intros Hrun. rewrite (getAllGrants_assigns _ _ _ _ _ _ Hrun). split.
  - intros k. apply assign_each_is_Some.
  - intros k g. apply assign_each_lookup_Some.
Qed.

(** X9: the array getAllGrants returns.  When the cache stores every grant
    under its own id, so does the mapping the run leaves; the returned
    array lists exactly the records of the mapping, one per id; save is
    called exactly when the mapping is not empty; and when every id of the
    mapping is an array index (from 0 to 2^32 - 2) the array is in ascending
    id order. *)
Theorem getAllGrants_returns_each_grant_once (net : Network) (latest : Z) (force : bool)
    (cache : option LocalForageData) (sent : list Request) (out : Synced) :
  well_keyed (cached_grants cache) ->
  getAllGrants net latest force cache = (sent, Ok out) ->
  well_keyed (_lsGrants out) /\
  (forall g, g ∈ grants out <-> exists k, _lsGrants out !! k = Some g) /\
  length (grants out) = size (_lsGrants out) /\
  NoDup (id <$> grants out) /\
  (saved out = true <-> _lsGrants out <> ∅) /\
  ((forall k, is_Some (_lsGrants out !! k) -> array_index k) ->
   Sorted Z.le (id <$> grants out)).
Proof.
  intros Hkeys Hrun.
  assert (well_keyed (_lsGrants out)) as Hout.
  { rewrite (getAllGrants_assigns _ _ _ _ _ _ Hrun). by apply assign_each_well_keyed. }
  assert (exists m, out = hydrate m) as [m ->].
  { revert Hrun. unfold getAllGrants.
    destruct (_ || _ || _); [|intros [= _ <-]; by eexists].
    destruct (match truthy SUBGRAPH_URL with Some _ => _ | None => _ end)
      as [[sent' m] f].
    destruct (f <? latest); [|intros [= _ <-]; by eexists].
    destruct (batchFilterCall net GrantCreated f latest); [|done].
    destruct (batchFilterCall net GrantUpdated f latest); [|done].
    cbn [bind]. destruct (map_throwing _ _); [|done].
    intros [= _ <-]. by eexists. }
  cbn [grants _lsGrants saved hydrate] in *.
  split; [exact Hout|].
  split; [intros g; apply elem_of_Object_values|].
  split; [apply length_Object_values|].
  split; [by apply Object_values_ids_NoDup|].
  split; [|by apply Object_values_ids_sorted].
  rewrite length_Object_values. split.
  - intros Hsaved ->. by rewrite map_size_empty in Hsaved.
  - intros Hne. apply negb_true_iff, Nat.eqb_neq. by intros ?%map_size_empty_inv.
Qed.

Lemma Forall2_Ok_elem {A B : Type} (f : A -> result B) (l : list A) (bs : list B) (b : B) :
  Forall2 (fun a b => f a = Ok b) l bs -> b ∈ bs -> exists a, a ∈ l /\ f a = Ok b.
Proof.
  induction 1 as [|a b' l bs Hab _ IH]; intros Hin; [by apply elem_of_nil in Hin|].
  apply elem_of_cons in Hin as [->|Hin].
  - exists a. split; [left | done].
  - destruct (IH Hin) as (a' & ? & ?). exists a'. split; [by right | done].
Qed.

(** Without a subgraph, every written record is an event converted against
    the cache. *)
Lemma written_without_subgraph (net : Network) (latest : Z) (force : bool)
    (cache : option LocalForageData) (g : Grant) :
  truthy SUBGRAPH_URL = None ->
  g ∈ written net latest force cache ->
  exists tx, event_grant (cached_grants cache) tx = Ok g.
Proof.
  intros Hurl. unfold written. rewrite Hurl.
  destruct (_ || _ || _); [|by intros ?%elem_of_nil].
  destruct (_ <? latest); [|by intros ?%elem_of_nil].
  destruct (batchFilterCall net GrantCreated _ latest) as [newGrants|];
    [|by intros ?%elem_of_nil].
  destruct (batchFilterCall net GrantUpdated _ latest) as [updatedGrants|];
    [|by intros ?%elem_of_nil].
  cbn [assign_each fold_left].
  destruct (map_throwing _ _) as [mapped|] eqn:Hmap; [|by intros ?%elem_of_nil].
  cbn. intros Hin.
  destruct (Forall2_Ok_elem _ _ _ _ (map_throwing_Ok _ _ _ Hmap) Hin) as (tx & _ & Htx).
  by exists tx.
Qed.

(** X10: which requests a run sends.  A run sends nothing, or the subgraph
    query alone, or the subgraph query followed by the two log scans, or
    (with no subgraph configured) the two log scans alone.  The subgraph is
    asked at most once and first; the GrantCreated and GrantUpdated scans
    always come together, over the same range, which starts at the block
    the subgraph was asked from, ends at latestBlockNumber and spans more
    than one block. *)
Theorem getAllGrants_sends (net : Network) (latest : Z) (force : bool)
    (cache : option LocalForageData) :
  let _lsBlockNumber :=
    match cache with
    | Some d => default 0 (blockNumber d)
    | None => 0
    end in
  let fromBlock := if _lsBlockNumber =? 0 then START_BLOCK else _lsBlockNumber + 1 in
  let sent := (getAllGrants net latest force cache).1 in
  sent = [] \/
  (exists url, truthy SUBGRAPH_URL = Some url /\ sent = [SubgraphQuery url fromBlock]) \/
  (exists url, truthy SUBGRAPH_URL = Some url /\ fromBlock < latest /\
     sent = [SubgraphQuery url fromBlock;
             RpcScan GrantCreated fromBlock latest;
             RpcScan GrantUpdated fromBlock latest]) \/
  (truthy SUBGRAPH_URL = None /\ fromBlock < latest /\
     sent = [RpcScan GrantCreated fromBlock latest;
             RpcScan GrantUpdated fromBlock latest]).
Proof.
  intros _lsBlockNumber fromBlock. unfold getAllGrants.
  fold (cached_grants cache). fold _lsBlockNumber.
  destruct (_ || _ || _); [|by left]. fold fromBlock.
  destruct (truthy SUBGRAPH_URL) as [url|].
  - right. destruct (recursiveGraphFetch net url fromBlock) as [grants|].
    + destruct (subgraph_forEach grants (cached_grants cache)) as [m [|]].
      * rewrite Z.ltb_irrefl. left. by exists url.
      * destruct (Z.ltb_spec fromBlock latest).
        -- right; left. by exists url.
        -- left. by exists url.
    + destruct (Z.ltb_spec fromBlock latest).
      * right; left. by exists url.
      * left. by exists url.
  - destruct (Z.ltb_spec fromBlock latest); [|by left].
    right; right; right. done.
Qed.

(** X11: a subgraph record that cannot be converted.  When the subgraph
    answers but one of its records throws (a bad id or address), the records
    before it are assigned, the record and those after it are not, and the
    run goes on as after a failed subgraph request: when fromBlock is below
    latestBlockNumber it scans the log from the block the subgraph was asked
    from and assigns the events on top of what the subgraph loop left;
    otherwise it sends no scan and returns what the loop left. *)
Theorem getAllGrants_subgraph_record_throws (net : Network) (latest : Z) (force : bool)
    (cache : option LocalForageData) (url : string) (grants : list GrantSubgraph) :
  let _lsBlockNumber :=
    match cache with
    | Some d => default 0 (blockNumber d)
    | None => 0
    end in
  let fromBlock := if _lsBlockNumber =? 0 then START_BLOCK else _lsBlockNumber + 1 in
  truthy SUBGRAPH_URL = Some url ->
  force || negb (bool_decide (is_Some cache))
    || (bool_decide (is_Some cache) && (_lsBlockNumber <? latest)) = true ->
  recursiveGraphFetch net url fromBlock = Ok grants ->
  (subgraph_forEach grants (cached_grants cache)).2 = false ->
  (exists good bad rest,
      grants = good ++ bad :: rest /\
      reverts (subgraph_grant bad) /\
      map_throwing subgraph_grant good = Ok (subgraph_written grants)) /\
  getAllGrants net latest force cache =
    let _lsGrants := assign_each (subgraph_written grants) (cached_grants cache) in
    if fromBlock <? latest then
      ([SubgraphQuery url fromBlock;
        RpcScan GrantCreated fromBlock latest;
        RpcScan GrantUpdated fromBlock latest],
       let* newGrants := batchFilterCall net GrantCreated fromBlock latest in
       let* updatedGrants := batchFilterCall net GrantUpdated fromBlock latest in
       let* mapped := map_throwing (event_grant _lsGrants) (newGrants ++ updatedGrants) in
       Ok (hydrate (assign_each mapped _lsGrants)))
    else ([SubgraphQuery url fromBlock], Ok (hydrate _lsGrants)).
Proof.
  intros _lsBlockNumber fromBlock Hurl Hrefresh Hfetch Hstop.
  split; [by eapply subgraph_forEach_stops|].
  unfold getAllGrants. fold (cached_grants cache). fold _lsBlockNumber.
  rewrite Hrefresh. fold fromBlock. rewrite Hurl, Hfetch.
  destruct (subgraph_forEach_written grants (cached_grants cache)) as [Hm _].
  destruct (subgraph_forEach grants (cached_grants cache)) as [m completed].
  cbn in Hstop, Hm. subst completed m. cbv zeta.
  by destruct (fromBlock <? latest).
Qed.

(** X12: the log scan is all or nothing.  Unlike a failure of the subgraph,
    which is caught, a failure of the log scan is not: when a run sends the
    scans and either request throws, or any one of the returned events
    cannot be converted, getAllGrants throws and returns no mapping. *)
Theorem getAllGrants_scan_all_or_nothing (net : Network) (latest : Z) (force : bool)
    (cache : option LocalForageData) (f : Z) :
  RpcScan GrantCreated f latest ∈ (getAllGrants net latest force cache).1 ->
  (reverts (batchFilterCall net GrantCreated f latest) \/
   reverts (batchFilterCall net GrantUpdated f latest) \/
   exists newGrants updatedGrants tx,
     batchFilterCall net GrantCreated f latest = Ok newGrants /\
     batchFilterCall net GrantUpdated f latest = Ok updatedGrants /\
     tx ∈ newGrants ++ updatedGrants /\
     reverts (event_grant ∅ tx)) ->
  reverts (getAllGrants net latest force cache).2.
Proof.
  assert (forall (m : gmap Z Grant) fb,
    (reverts (batchFilterCall net GrantCreated fb latest) \/
     reverts (batchFilterCall net GrantUpdated fb latest) \/
     exists newGrants updatedGrants tx,
       batchFilterCall net GrantCreated fb latest = Ok newGrants /\
       batchFilterCall net GrantUpdated fb latest = Ok updatedGrants /\
       tx ∈ newGrants ++ updatedGrants /\
       reverts (event_grant ∅ tx)) ->
    reverts (let* newGrants := batchFilterCall net GrantCreated fb latest in
             let* updatedGrants := batchFilterCall net GrantUpdated fb latest in
             let* mapped := map_throwing (event_grant m) (newGrants ++ updatedGrants) in
             Ok (hydrate (assign_each mapped m)))) as Hscan.
  { intros m fb [[reason ->]|[Hupd|(newGrants & updatedGrants & tx & -> & -> & Hin & Hbad)]].
    - by exists reason.
    - destruct (batchFilterCall net GrantCreated fb latest) as [?|reason];
        [|by exists reason].
      destruct Hupd as [reason ->]. by exists reason.
    - cbn [bind].
      destruct (map_throwing_reverts (event_grant m) _ tx Hin) as [reason ->];
        [by eapply event_grant_reverts | by exists reason]. }
  unfold getAllGrants. fold (cached_grants cache).
  destruct (_ || _ || _); [|by intros ?%elem_of_nil].
  set (fromBlock := if _ =? 0 then _ else _).
  assert (forall pre : list Request,
    (forall r, r ∈ pre -> forall fl fb tb, r <> RpcScan fl fb tb) ->
    RpcScan GrantCreated f latest ∈
      pre ++ [RpcScan GrantCreated fromBlock latest;
              RpcScan GrantUpdated fromBlock latest] ->
    f = fromBlock) as Hf.
  { intros pre Hpre [Hin|Hin]%elem_of_app.
    - by destruct (Hpre _ Hin GrantCreated f latest).
    - apply elem_of_cons in Hin as [[= ->]|Hin]; [done|].
      apply list_elem_of_singleton in Hin. discriminate. }
  assert (forall url fb r, r ∈ [SubgraphQuery url fb] ->
            forall fl fb' tb, r <> RpcScan fl fb' tb) as Hsub.
  { intros url fb r ->%list_elem_of_singleton. done. }
  destruct (truthy SUBGRAPH_URL) as [url|].
  - destruct (recursiveGraphFetch net url fromBlock) as [grants|].
    + destruct (subgraph_forEach grants (cached_grants cache)) as [m [|]].
      * rewrite Z.ltb_irrefl. cbn. by intros ?%list_elem_of_singleton.
      * destruct (fromBlock <? latest); cbn [fst snd].
        -- intros ->%(Hf _ (Hsub url fromBlock)). apply Hscan.
        -- by intros ?%list_elem_of_singleton.
    + destruct (fromBlock <? latest); cbn [fst snd].
      * intros ->%(Hf _ (Hsub url fromBlock)). apply Hscan.
      * by intros ?%list_elem_of_singleton.
  - destruct (fromBlock <? latest); cbn [fst snd].
    + intros ->%(Hf []); [apply Hscan | by intros ? ?%elem_of_nil].
    + by intros ?%elem_of_nil.
Qed.

(** X13: createdAt without a subgraph.  With no subgraph configured, a
    grant that was cached keeps its cached createdAt whatever events the
    scan brings for it, and a grant that was not cached ends up with
    createdAt equal to its lastUpdated: the time of the last event the scan
    returned for it, also when that event is an update and the scan returned
    the creation too. *)
Theorem getAllGrants_createdAt_without_subgraph (net : Network) (latest : Z)
    (force : bool) (cache : option LocalForageData) (sent : list Request)
    (out : Synced) (k : Z) (r : Grant) :
  truthy SUBGRAPH_URL = None ->
  getAllGrants net latest force cache = (sent, Ok out) ->
  _lsGrants out !! k = Some r ->
  createdAt r = match cached_grants cache !! k with
                | Some cached => createdAt cached
                | None => lastUpdated r
                end.
Proof.
  intros Hurl Hrun Hr.
  rewrite (getAllGrants_assigns _ _ _ _ _ _ Hrun) in Hr.
  apply assign_each_lookup_Some in Hr as [Hr|[Hin <-]].
  - by rewrite Hr.
  - destruct (written_without_subgraph _ _ _ _ _ Hurl Hin) as [tx Htx].
    destruct (event_grant_fields _ _ _ Htx) as (_ & _ & _ & _ & Hupd & Hcreated).
    rewrite Hcreated, Hupd. done.
Qed.

(** *** [getApprovedGrants] *)

Lemma filterWhiteListed_Ok (gs fs : list Grant) (wl : Whitelist) :
  filterWhiteListed gs wl = Ok fs ->
  fs `sublist_of` gs /\
  (forall g, g ∈ fs -> exists ids, wl !! DGRANTS_CHAIN_ID = Some ids /\ id g ∈ ids) /\
  filterWhiteListed fs wl = Ok fs.
Proof.
  unfold filterWhiteListed. destruct gs as [|g0 gs].
  { intros [= <-]. split; [done|]. split; [|done]. by intros g ?%elem_of_nil. }
  destruct (wl !! DGRANTS_CHAIN_ID) as [ids|] eqn:Hids; [|done].
  intros [= <-]. split; [apply sublist_filter|]. split.
  - intros g [? _]%list_elem_of_filter. by exists ids.
  - destruct (filter _ (g0 :: gs)) as [|f0 fs] eqn:Hfs; [done|].
    rewrite <- Hfs. f_equal. by apply list_filter_filter_r.
Qed.

Lemma fallback_Ok (gs : list Grant) (storage : option Whitelist) (a : Approved) :
  fallback gs storage = Ok a ->
  exists wl, storage = Some wl /\
    filterWhiteListed gs wl = Ok (approved_grants a) /\
    approvedGrantsPk a = wl !! DGRANTS_CHAIN_ID.
Proof.
  unfold fallback. destruct storage as [wl|]; [|done].
  destruct (filterWhiteListed gs wl) as [fs|] eqn:Hfs; [|done]. cbn [bind].
  intros [= <-]. by exists wl.
Qed.

(** With a URL configured, a call that returns has filtered by one
    whitelist: the fetched one, or the cached one after a failed fetch. *)
Lemma getApprovedGrants_Ok (fetched : Fetched) (storage storage' : option Whitelist)
    (gs : list Grant) (a : Approved) (whitelistUrl : string) :
  truthy VITE_GRANT_WHITELIST_URI = Some whitelistUrl ->
  getApprovedGrants fetched storage gs = (storage', Ok a) ->
  exists wl, storage' = Some wl /\
    filterWhiteListed gs wl = Ok (approved_grants a) /\
    approvedGrantsPk a = wl !! DGRANTS_CHAIN_ID /\
    (fetched = FetchJson (Some wl) \/ (fetch_failed fetched = true /\ storage = Some wl)).
Proof.
  intros Hurl. unfold getApprovedGrants. rewrite Hurl.
  destruct fetched as [reason|[json|]].
  - intros [= <- Hfb]. destruct (fallback_Ok _ _ _ Hfb) as (wl & -> & ? & ?).
    exists wl. repeat split; try done. by right.
  - destruct (filterWhiteListed gs json) as [fs|] eqn:Hfs.
    + intros [= <- <-]. exists json. repeat split; try done. by left.
    + unfold fallback. rewrite Hfs. cbn [bind]. intros [= _].
  - destruct (fallback gs storage) as [a'|] eqn:Hfb.
    + intros [= <- <-]. destruct (fallback_Ok _ _ _ Hfb) as (wl & -> & ? & ?).
      exists wl. repeat split; try done. by right.
    + by intros [= <- ?].
Qed.

(** X14: getApprovedGrants never approves a grant it was not given.  When
    it returns, the grants it returns are a sublist of its input (same
    order, nothing added).  With no whitelist URL configured they are the
    input itself and approvedGrantsPk is the empty list; with one, every
    returned grant has its id in approvedGrantsPk. *)
Theorem getApprovedGrants_never_adds (fetched : Fetched)
    (storage storage' : option Whitelist) (gs : list Grant) (a : Approved) :
  getApprovedGrants fetched storage gs = (storage', Ok a) ->
  approved_grants a `sublist_of` gs /\
  (truthy VITE_GRANT_WHITELIST_URI = None ->
     approved_grants a = gs /\ approvedGrantsPk a = Some []) /\
  (is_Some (truthy VITE_GRANT_WHITELIST_URI) ->
     forall g, g ∈ approved_grants a ->
       exists ids, approvedGrantsPk a = Some ids /\ id g ∈ ids).
Proof.
  intros Hrun. destruct (truthy VITE_GRANT_WHITELIST_URI) as [u|] eqn:Hurl.
  - destruct (getApprovedGrants_Ok _ _ _ _ _ _ Hurl Hrun) as (wl & _ & Hfs & Hpk & _).
    destruct (filterWhiteListed_Ok _ _ _ Hfs) as (Hsub & Hids & _).
    split; [exact Hsub|]. split; [done|].
    intros _ g Hg. rewrite Hpk. by apply Hids.
  - revert Hrun. unfold getApprovedGrants. rewrite Hurl. intros [= _ <-]. cbn.
    split; [done|]. split; [done|]. by intros [? ?].
Qed.

(** X15: what happens to the cached whitelist.  The storage slot is
    overwritten exactly when a whitelist URL is configured and the fetch
    delivers truthy JSON, and then it holds that JSON, whether or not the
    filter succeeds afterwards; in every other case it is left as it was.
    It is never cleared. *)
Theorem getApprovedGrants_storage (fetched : Fetched) (storage : option Whitelist)
    (gs : list Grant) :
  (getApprovedGrants fetched storage gs).1 =
    match truthy VITE_GRANT_WHITELIST_URI, fetched with
    | Some _, FetchJson (Some json) => Some json
    | _, _ => storage
    end.
Proof.
  unfold getApprovedGrants.
  destruct (truthy VITE_GRANT_WHITELIST_URI); [|done].
  destruct fetched as [reason|[json|]]; [done| |].
  - by destruct (filterWhiteListed gs json).
  - by destruct (fallback gs storage).
Qed.

(** X16: a fetched whitelist without an entry for the chain.  With a URL
    configured and at least one grant to filter, a fetch that delivers a
    whitelist object with no entry for the current chain id makes
    getApprovedGrants throw a TypeError, after the object has replaced the
    cached whitelist; the fallback then reads that same object, so a later
    call whose fetch fails throws the TypeError too, whatever was cached
    before. *)
Theorem getApprovedGrants_whitelist_without_chain (storage : option Whitelist)
    (json : Whitelist) (gs : list Grant) (whitelistUrl : string) :
  truthy VITE_GRANT_WHITELIST_URI = Some whitelistUrl ->
  json !! DGRANTS_CHAIN_ID = None ->
  gs <> [] ->
  getApprovedGrants (FetchJson (Some json)) storage gs =
    (Some json,
     Revert "TypeError: Cannot read properties of undefined (reading 'includes')") /\
  (forall fetched,
     fetch_failed fetched = true ->
     getApprovedGrants fetched (Some json) gs =
       (Some json,
        Revert "TypeError: Cannot read properties of undefined (reading 'includes')")).
Proof.
  intros Hurl Hnone Hgs.
  assert (filterWhiteListed gs json =
          Revert "TypeError: Cannot read properties of undefined (reading 'includes')")
    as Hfilter.
  { unfold filterWhiteListed. rewrite Hnone. by destruct gs. }
  assert (fallback gs (Some json) =
          Revert "TypeError: Cannot read properties of undefined (reading 'includes')")
    as Hfb.
  { unfold fallback. by rewrite Hfilter. }
  unfold getApprovedGrants. rewrite Hurl. split.
  - by rewrite Hfilter, Hfb.
  - intros [reason|[json'|]] Hfail; [|discriminate|]; by rewrite Hfb.
Qed.

(** X17: filtering is idempotent.  If getApprovedGrants returns, calling it
    again on the grants it returned, with the same fetch outcome and the
    storage it left, returns the same result and leaves the same storage. *)
Theorem getApprovedGrants_idempotent (fetched : Fetched)
    (storage storage' : option Whitelist) (gs : list Grant) (a : Approved) :
  getApprovedGrants fetched storage gs = (storage', Ok a) ->
  getApprovedGrants fetched storage' (approved_grants a) = (storage', Ok a).
Proof.
  intros Hrun. destruct (truthy VITE_GRANT_WHITELIST_URI) as [u|] eqn:Hurl.
  - destruct (getApprovedGrants_Ok _ _ _ _ _ _ Hurl Hrun)
      as (wl & -> & Hfs & Hpk & Hpath).
    destruct (filterWhiteListed_Ok _ _ _ Hfs) as (_ & _ & Hagain).
    assert (fallback (approved_grants a) (Some wl) = Ok a) as Hfb.
    { unfold fallback. rewrite Hagain. cbn [bind]. rewrite <- Hpk. by destruct a. }
    unfold getApprovedGrants. rewrite Hurl.
    destruct Hpath as [->|[Hfail _]].
    + rewrite Hagain, <- Hpk. by destruct a.
    + destruct fetched as [reason|[json|]]; [|discriminate|]; by rewrite Hfb.
  - revert Hrun. unfold getApprovedGrants. rewrite Hurl. by intros [= <- <-].
Qed.

(** *** [grantListener] *)

(** The record the listener assigns is the one the log scan builds from
    the same event and cache. *)
Lemma grantListener_Ok (fetched : Fetched) (storage : option Whitelist) (refs : Refs)
    (cache : option LocalForageData) (tx : Event) (m' : gmap Z Grant) :
  heard_result (grantListener fetched storage refs cache tx) = Ok m' ->
  exists g refetch a,
    event_grant (cached_grants cache) tx = Ok g /\
    refetches_metadata (cached_grants cache) (id g) (args_metaPtr tx) = Ok refetch /\
    m' = <[id g := g]> (cached_grants cache) /\
    getApprovedGrants fetched storage (Object_values m') =
      (heard_storage (grantListener fetched storage refs cache tx), Ok a) /\
    heard_refs (grantListener fetched storage refs cache tx) =
      {| ref_grants := Object_values m';
         ref_approvedGrants := approved_grants a;
         ref_approvedGrantsPk := approvedGrantsPk a |} /\
    heard_effects (grantListener fetched storage refs cache tx) =
      (if refetch then [GetMetadata (args_metaPtr tx)] else [])
      ++ [FetchMetaPtrs (metaPtr <$> Object_values m'); Save].
Proof.
  unfold grantListener, event_grant.
  destruct (bind (BigNumber_from (args_id tx)) toNumber) as [k|]; [|done].
  destruct (refetches_metadata (cached_grants cache) k (args_metaPtr tx))
    as [refetch|] eqn:Hre; [|done].
  destruct (getAddress (args_owner tx)) as [o|]; [|done].
  destruct (getAddress (args_payee tx)) as [p|]; [|done].
  cbn [bind].
  destruct (getApprovedGrants fetched storage _) as [storage' [a|]] eqn:Happ; [|done].
  cbn. intros [= <-]. eexists _, refetch, a. cbn. by rewrite Happ.
Qed.

(** X18: what the listener stores.  When the listener's callback returns,
    the mapping it returns is the cached one with a single entry replaced:
    under the event's id it holds the record the log scan would build from
    the same event (its lastUpdated is the event's time, its createdAt is
    the cached createdAt when the id was cached and the event's time
    otherwise), and every other id keeps its cached record.  A cache that
    stores grants under their own ids stays so. *)
Theorem grantListener_stores_event (fetched : Fetched) (storage : option Whitelist)
    (refs : Refs) (cache : option LocalForageData) (tx : Event) (m' : gmap Z Grant) :
  heard_result (grantListener fetched storage refs cache tx) = Ok m' ->
  exists g,
    event_grant (cached_grants cache) tx = Ok g /\
    m' = assign_each [g] (cached_grants cache) /\
    m' !! id g = Some g /\
    (forall k, k <> id g -> m' !! k = cached_grants cache !! k) /\
    lastUpdated g = args_time tx /\
    createdAt g = match cached_grants cache !! id g with
                  | Some cached => createdAt cached
                  | None => args_time tx
                  end /\
    (well_keyed (cached_grants cache) -> well_keyed m').
Proof.
  intros Hok. destruct (grantListener_Ok _ _ _ _ _ _ Hok) as (g & _ & _ & Hg & _ & -> & _).
  destruct (event_grant_fields _ _ _ Hg) as (_ & _ & _ & _ & Hupd & Hcreated).
  exists g. split; [exact Hg|]. split; [done|].
  split; [apply lookup_insert_eq|].
  split; [intros k Hk; by apply lookup_insert_ne|].
  split; [exact Hupd|]. split; [exact Hcreated|].
  intros Hkeys. by apply (assign_each_well_keyed [g]).
Qed.

(** X19: the listener when the whitelist cannot be loaded.  If the event
    converts but the whitelist fetch fails with nothing cached, the callback
    throws "Failed to load whitelist and couldn't find a cached"; by then
    refs.grants already holds the updated list, while refs.approvedGrants and
    refs.approvedGrantsPk keep their old values, and neither fetchMetaPtrs nor
    save is called. *)
Theorem grantListener_whitelist_unavailable (fetched : Fetched) (refs : Refs)
    (cache : option LocalForageData) (tx : Event) (g : Grant) (refetch : bool)
    (whitelistUrl : string) :
  truthy VITE_GRANT_WHITELIST_URI = Some whitelistUrl ->
  fetch_failed fetched = true ->
  event_grant (cached_grants cache) tx = Ok g ->
  refetches_metadata (cached_grants cache) (id g) (args_metaPtr tx) = Ok refetch ->
  grantListener fetched None refs cache tx =
    {| heard_refs :=
         {| ref_grants := Object_values (<[id g := g]> (cached_grants cache));
            ref_approvedGrants := ref_approvedGrants refs;
            ref_approvedGrantsPk := ref_approvedGrantsPk refs |};
       heard_storage := None;
       heard_effects := if refetch then [GetMetadata (args_metaPtr tx)] else [];
       heard_result := Revert "Failed to load whitelist and couldn't find a cached" |}.
Proof.
  intros Hurl Hfail Hg Hre.
  assert (forall gs, getApprovedGrants fetched None gs =
            (None, Revert "Failed to load whitelist and couldn't find a cached"))
    as Happ.
  { intros gs. unfold getApprovedGrants. rewrite Hurl.
    by destruct fetched as [reason|[json|]]. }
  revert Hg Hre. unfold grantListener, event_grant.
  destruct (bind (BigNumber_from (args_id tx)) toNumber) as [k|]; [|done].
  destruct (getAddress (args_owner tx)) as [o|]; [|done].
  destruct (getAddress (args_payee tx)) as [p|]; [|done].
  cbn [bind]. intros [= <-]. cbn [id]. intros ->.
  by rewrite Happ.
Qed.

(** X20: what the listener publishes.  When the callback returns,
    refs.grants lists exactly the records of the returned mapping,
    refs.approvedGrants is a sublist of refs.grants, fetchMetaPtrs is called
    once with the metaPtr of every listed grant (the event's among them),
    save is called last, and getMetadata is called at most once, before
    them, with the event's metaPtr. *)
Theorem grantListener_publishes (fetched : Fetched) (storage : option Whitelist)
    (refs : Refs) (cache : option LocalForageData) (tx : Event) (m' : gmap Z Grant) :
  heard_result (grantListener fetched storage refs cache tx) = Ok m' ->
  let heard := grantListener fetched storage refs cache tx in
  (forall g, g ∈ ref_grants (heard_refs heard) <-> exists k, m' !! k = Some g) /\
  ref_approvedGrants (heard_refs heard) `sublist_of` ref_grants (heard_refs heard) /\
  (exists before,
      heard_effects heard =
        before ++ [FetchMetaPtrs (metaPtr <$> ref_grants (heard_refs heard)); Save] /\
      (before = [] \/ before = [GetMetadata (args_metaPtr tx)])) /\
  args_metaPtr tx ∈ metaPtr <$> ref_grants (heard_refs heard).
Proof.
  intros Hok heard. subst heard.
  destruct (grantListener_Ok _ _ _ _ _ _ Hok)
    as (g & refetch & a & Hg & _ & Hm & Happ & -> & ->).
  cbn [ref_grants ref_approvedGrants].
  split; [intros g'; apply elem_of_Object_values|].
  split.
  { revert Happ. generalize (heard_storage (grantListener fetched storage refs cache tx)).
    intros storage' Happ.
    destruct (truthy VITE_GRANT_WHITELIST_URI) as [u|] eqn:Hurl.
    - destruct (getApprovedGrants_Ok _ _ _ _ _ _ Hurl Happ) as (wl & _ & Hfs & _).
      by destruct (filterWhiteListed_Ok _ _ _ Hfs) as [? _].
    - revert Happ. unfold getApprovedGrants. rewrite Hurl. by intros [= _ <-]. }
  split.
  { eexists. split; [done|]. destruct refetch; [by right | by left]. }
  destruct (event_grant_fields _ _ _ Hg) as (_ & _ & _ & <- & _).
  apply list_elem_of_fmap. exists g. split; [done|].
  apply elem_of_Object_values. exists (id g). rewrite Hm. apply lookup_insert_eq.
Qed.

(** X21: a re-delivered event changes nothing but object identities.  If
    the callback returned a mapping for an event, and the same log entry is
    delivered again (decoded afresh, so with the same values, possibly in
    new BigNumber objects) to a cache that holds a copy of that mapping,
    then the mapping the callback returns, when it returns, has for every id
    a record with the same id, owner, payee, pointer, protocol number,
    createdAt and lastUpdated as the first one. *)
Theorem grantListener_redelivery (fetched fetched' : Fetched)
    (storage storage' : option Whitelist) (refs refs' : Refs)
    (cache : option LocalForageData) (block : option Z) (tx tx' : Event)
    (m1 copy m2 : gmap Z Grant) :
  heard_result (grantListener fetched storage refs cache tx) = Ok m1 ->
  same_grants m1 copy ->
  same_event tx tx' ->
  heard_result
    (grantListener fetched' storage' refs'
       (Some {| blockNumber := block; data_grants := Some copy |}) tx') = Ok m2 ->
  same_grants m1 m2.
Proof.
  intros Hfirst Hcopy (Hid & Ho & Hp & Hmp & Ht) Hsecond.
  destruct (grantListener_Ok _ _ _ _ _ _ Hfirst) as (g1 & _ & _ & Hg1 & _ & Hm1 & _).
  destruct (grantListener_Ok _ _ _ _ _ _ Hsecond) as (g2 & _ & _ & Hg2 & _ & Hm2 & _).
  change (cached_grants (Some {| blockNumber := block; data_grants := Some copy |}))
    with copy in Hg2, Hm2.
  destruct (event_grant_fields _ _ _ Hg1) as (Hid1 & Ho1 & Hp1 & Hmp1 & Hupd1 & _).
  destruct (event_grant_fields _ _ _ Hg2) as (Hid2 & Ho2 & Hp2 & Hmp2 & Hupd2 & Hcr2).
  assert (id g2 = id g1) as Hsame by congruence.
  rewrite Hsame in Hm2, Hcr2.
  intros k. specialize (Hcopy k). subst m1 m2.
  destruct (decide (k = id g1)) as [->|Hne].
  - rewrite lookup_insert_eq in Hcopy. rewrite !lookup_insert_eq.
    destruct (copy !! id g1) as [h|] eqn:Hh; [|done].
    destruct Hcopy as (_ & _ & _ & _ & Hcr & _).
    repeat split; try congruence.
    + rewrite Hmp1, Hmp2. apply Hmp.
    + rewrite Hmp1, Hmp2. apply Hmp.
  - rewrite lookup_insert_ne in Hcopy by done.
    by rewrite !lookup_insert_ne by done.
Qed.

End DataLayerMore.

(** *** The properties on the sample data *)

Section MoreExamples.
Import Payout Evm Grants Sample.
Local Abbreviation E := (env this).

Lemma batchClaim_success_witness :
  batchClaim (env := E) [claim0; claim1] funded = Ok after_batch /\
  events after_batch = [Claimed 0 alice 100; Claimed 1 bob 200] /\
  NoDup (index <$> [claim0; claim1]).
Proof.
  split; [vm_compute; reflexivity|].
  destruct (batchClaim_success (env := E) [claim0; claim1] funded after_batch)
    as (Hev & Hnd & _); [vm_compute; reflexivity|].
  split; [exact Hev | exact Hnd].
Defined.

Lemma batchClaim_first_failure_witness :
  claim (env := E) forged after_batch =
    Revert "MerkleGrantRoundPayout: Funds already claimed" /\
  batchClaim (env := E) [claim0; claim1; forged] funded =
    Revert "MerkleGrantRoundPayout: Funds already claimed".
Proof.
  split; [vm_compute; reflexivity|].
  apply (batchClaim_first_failure (env := E) [claim0; claim1; forged] funded
           after_batch 2 forged); vm_compute; reflexivity.
Defined.

Lemma claim_invalid_proof_reverts_witness :
  leaf_verifies (env := E) forged funded = false /\
  claim (env := E) forged funded = Revert "MerkleGrantRoundPayout: Invalid proof." /\
  commit (claim (env := E) forged) funded = funded.
Proof.
  split; [vm_compute; reflexivity|].
  apply (claim_invalid_proof_reverts (env := E) forged funded).
  vm_compute. reflexivity.
Defined.

Lemma well_keyed_cached7 : well_keyed ({[ 7 := cached7 ]} : gmap Z Grant).
Proof. by intros k g [<- <-]%lookup_singleton_Some. Qed.

Lemma getAllGrants_keeps_cached_witness :
  getAllGrants (cfg := cfg_rpc) net_log5 20 false (Some (cache_at 10 {[ 7 := cached7 ]})) =
    ([RpcScan GrantCreated 11 20; RpcScan GrantUpdated 11 20],
     Ok (hydrate {[ 7 := cached7; 5 := grant5 ]})) /\
  is_Some (({[ 7 := cached7; 5 := grant5 ]} : gmap Z Grant) !! 7).
Proof.
  split; [vm_compute; reflexivity|].
  destruct (getAllGrants_keeps_cached (cfg := cfg_rpc) net_log5 20 false
              (Some (cache_at 10 {[ 7 := cached7 ]}))
              [RpcScan GrantCreated 11 20; RpcScan GrantUpdated 11 20]
              (hydrate {[ 7 := cached7; 5 := grant5 ]}))
    as [Hkeep _]; [vm_compute; reflexivity|].
  apply (Hkeep 7). by exists cached7.
Defined.

Lemma sample_ids_are_array_indices (k : Z) :
  is_Some (({[ 7 := cached7; 5 := grant5 ]} : gmap Z Grant) !! k) -> array_index k.
Proof.
  intros [g Hk]. apply lookup_insert_Some in Hk as [[<- _]|[_ Hk]].
  - unfold array_index. lia.
  - apply lookup_singleton_Some in Hk as [<- _]. unfold array_index. lia.
Qed.

Lemma getAllGrants_returns_each_grant_once_witness :
  well_keyed ({[ 7 := cached7 ]} : gmap Z Grant) /\
  grants (hydrate {[ 7 := cached7; 5 := grant5 ]}) = [grant5; cached7] /\
  NoDup (id <$> grants (hydrate {[ 7 := cached7; 5 := grant5 ]})) /\
  Sorted Z.le (id <$> grants (hydrate {[ 7 := cached7; 5 := grant5 ]})).
Proof.
  split; [exact well_keyed_cached7|].
  split; [vm_compute; reflexivity|].
  destruct (getAllGrants_returns_each_grant_once (cfg := cfg_rpc) net_log5 20 false
              (Some (cache_at 10 {[ 7 := cached7 ]}))
              [RpcScan GrantCreated 11 20; RpcScan GrantUpdated 11 20]
              (hydrate {[ 7 := cached7; 5 := grant5 ]}))
    as (_ & _ & _ & Hnd & _ & Hsorted);
    [exact well_keyed_cached7 | vm_compute; reflexivity|].
  split; [exact Hnd | exact (Hsorted sample_ids_are_array_indices)].
Defined.

Lemma getAllGrants_subgraph_record_throws_witness :
  (subgraph_forEach (cfg := cfg) [subgraph7 150; subgraph_malformed; subgraph9]
     {[ 7 := cached7 ]}).2 = false /\
  getAllGrants (cfg := cfg) net_subgraph_malformed 20 false
    (Some (cache_at 10 {[ 7 := cached7 ]})) =
    ([SubgraphQuery url 11; RpcScan GrantCreated 11 20; RpcScan GrantUpdated 11 20],
     Ok (hydrate {[ 7 := indexed7 150; 3 := grant3 ]})) /\
  getAllGrants (cfg := cfg) net_subgraph_malformed 11 false
    (Some (cache_at 10 {[ 7 := cached7 ]})) =
    ([SubgraphQuery url 11], Ok (hydrate {[ 7 := indexed7 150 ]})).
Proof.
  split; [vm_compute; reflexivity|].
  destruct (getAllGrants_subgraph_record_throws (cfg := cfg) net_subgraph_malformed 20 false
              (Some (cache_at 10 {[ 7 := cached7 ]})) url
              [subgraph7 150; subgraph_malformed; subgraph9])
    as [_ Hscan]; [vm_compute; reflexivity..|].
  destruct (getAllGrants_subgraph_record_throws (cfg := cfg) net_subgraph_malformed 11 false
              (Some (cache_at 10 {[ 7 := cached7 ]})) url
              [subgraph7 150; subgraph_malformed; subgraph9])
    as [_ Hnone]; [vm_compute; reflexivity..|].
  rewrite Hscan, Hnone. vm_compute. split; reflexivity.
Defined.

Lemma getAllGrants_scan_all_or_nothing_witness :
  RpcScan GrantCreated 11 20 ∈
    (getAllGrants (cfg := cfg) net_scan_fails 20 false
       (Some (cache_at 10 {[ 7 := cached7 ]}))).1 /\
  reverts (getAllGrants (cfg := cfg) net_scan_fails 20 false
             (Some (cache_at 10 {[ 7 := cached7 ]}))).2.
Proof.
  assert (RpcScan GrantCreated 11 20 ∈
    (getAllGrants (cfg := cfg) net_scan_fails 20 false
       (Some (cache_at 10 {[ 7 := cached7 ]}))).1) as Hsent.
  { vm_compute. right. left. }
  split; [exact Hsent|].
  apply (getAllGrants_scan_all_or_nothing (cfg := cfg) net_scan_fails 20 false
           (Some (cache_at 10 {[ 7 := cached7 ]})) 11 Hsent).
  right; left. by exists "timeout".
Defined.

Lemma getAllGrants_createdAt_without_subgraph_witness :
  batchFilterCall net_log5 GrantCreated 11 20 = Ok [created5] /\
  args_time created5 = 500 /\
  ({[ 7 := cached7; 5 := grant5 ]} : gmap Z Grant) !! 5 = Some grant5 /\
  createdAt grant5 = lastUpdated grant5.
Proof.
  split; [reflexivity|]. split; [reflexivity|].
  split; [vm_compute; reflexivity|].
  assert (truthy (SUBGRAPH_URL (Config := cfg_rpc)) = None) as Hurl by reflexivity.
  assert (getAllGrants (cfg := cfg_rpc) net_log5 20 false
            (Some (cache_at 10 {[ 7 := cached7 ]})) =
          ([RpcScan GrantCreated 11 20; RpcScan GrantUpdated 11 20],
           Ok (hydrate {[ 7 := cached7; 5 := grant5 ]}))) as Hrun
    by (vm_compute; reflexivity).
  assert (_lsGrants (hydrate {[ 7 := cached7; 5 := grant5 ]}) !! 5 = Some grant5)
    as Hlookup by (vm_compute; reflexivity).
  exact (getAllGrants_createdAt_without_subgraph (cfg := cfg_rpc) net_log5 20 false
           (Some (cache_at 10 {[ 7 := cached7 ]})) _ _ 5 grant5 Hurl Hrun Hlookup).
Defined.

Lemma getApprovedGrants_never_adds_witness :
  getApprovedGrants (cfg := cfg) (FetchJson (Some whitelist_new)) None [cached7; grant3] =
    (Some whitelist_new,
     Ok {| approved_grants := [cached7]; approvedGrantsPk := Some [7; 9] |}) /\
  [cached7] `sublist_of` [cached7; grant3].
Proof.
  split; [vm_compute; reflexivity|].
  destruct (getApprovedGrants_never_adds (cfg := cfg) (FetchJson (Some whitelist_new))
              None (Some whitelist_new) [cached7; grant3]
              {| approved_grants := [cached7]; approvedGrantsPk := Some [7; 9] |})
    as [Hsub _]; [vm_compute; reflexivity | exact Hsub].
Defined.

Lemma getApprovedGrants_whitelist_without_chain_witness :
  whitelist_other_chain !! (1 : Z) = None /\
  getApprovedGrants (cfg := cfg) (FetchJson (Some whitelist_other_chain))
    (Some whitelist_new) [cached7] =
    (Some whitelist_other_chain,
     Revert "TypeError: Cannot read properties of undefined (reading 'includes')") /\
  getApprovedGrants (cfg := cfg) (FetchThrows "Failed to fetch")
    (Some whitelist_other_chain) [cached7] =
    (Some whitelist_other_chain,
     Revert "TypeError: Cannot read properties of undefined (reading 'includes')").
Proof.
  split; [reflexivity|].
  destruct (getApprovedGrants_whitelist_without_chain (cfg := cfg) (Some whitelist_new)
              whitelist_other_chain [cached7] "https://whitelist.example/grants.json")
    as [Hfirst Hlater]; [reflexivity | reflexivity | discriminate |].
  split; [exact Hfirst|]. by apply Hlater.
Defined.

Lemma getApprovedGrants_idempotent_witness :
  getApprovedGrants (cfg := cfg) (FetchThrows "Failed to fetch") (Some whitelist_new)
    [cached7; grant3] =
    (Some whitelist_new,
     Ok {| approved_grants := [cached7]; approvedGrantsPk := Some [7; 9] |}) /\
  getApprovedGrants (cfg := cfg) (FetchThrows "Failed to fetch") (Some whitelist_new)
    [cached7] =
    (Some whitelist_new,
     Ok {| approved_grants := [cached7]; approvedGrantsPk := Some [7; 9] |}).
Proof.
  split; [vm_compute; reflexivity|].
  apply (getApprovedGrants_idempotent (cfg := cfg) (FetchThrows "Failed to fetch")
           (Some whitelist_new) (Some whitelist_new) [cached7; grant3]
           {| approved_grants := [cached7]; approvedGrantsPk := Some [7; 9] |}).
  vm_compute. reflexivity.
Defined.

Lemma grantListener_stores_event_witness :
  heard_result
    (grantListener (cfg := cfg) (FetchJson (Some whitelist_new)) None refs0
       (Some (cache_at 10 {[ 7 := cached7 ]})) updated7) = Ok {[ 7 := heard7 ]} /\
  exists g,
    event_grant (cfg := cfg) (cached_grants (Some (cache_at 10 {[ 7 := cached7 ]})))
      updated7 = Ok g /\
    ({[ 7 := heard7 ]} : gmap Z Grant) !! id g = Some g /\
    lastUpdated g = 700.
Proof.
  split; [vm_compute; reflexivity|].
  destruct (grantListener_stores_event (cfg := cfg) (FetchJson (Some whitelist_new)) None
              refs0 (Some (cache_at 10 {[ 7 := cached7 ]})) updated7 {[ 7 := heard7 ]})
    as (g & Hg & _ & Hlookup & _ & Htime & _); [vm_compute; reflexivity|].
  exists g. split; [exact Hg|]. split; [exact Hlookup | exact Htime].
Defined.

Lemma grantListener_whitelist_unavailable_witness :
  heard_result
    (grantListener (cfg := cfg) (FetchThrows "Failed to fetch") None refs0
       (Some (cache_at 10 {[ 7 := cached7 ]})) updated7) =
    Revert "Failed to load whitelist and couldn't find a cached" /\
  ref_grants (heard_refs
    (grantListener (cfg := cfg) (FetchThrows "Failed to fetch") None refs0
       (Some (cache_at 10 {[ 7 := cached7 ]})) updated7)) = [heard7] /\
  ref_approvedGrants (heard_refs
    (grantListener (cfg := cfg) (FetchThrows "Failed to fetch") None refs0
       (Some (cache_at 10 {[ 7 := cached7 ]})) updated7)) = [].
Proof.
  rewrite (grantListener_whitelist_unavailable (cfg := cfg) (FetchThrows "Failed to fetch")
             refs0 (Some (cache_at 10 {[ 7 := cached7 ]})) updated7 heard7 true
             "https://whitelist.example/grants.json")
    by (vm_compute; reflexivity).
  vm_compute. repeat split.
Defined.

Lemma grantListener_publishes_witness :
  heard_result
    (grantListener (cfg := cfg) (FetchJson (Some whitelist_new)) None refs0
       (Some (cache_at 10 {[ 7 := cached7 ]})) updated7) = Ok {[ 7 := heard7 ]} /\
  args_metaPtr updated7 ∈
    metaPtr <$> ref_grants (heard_refs
      (grantListener (cfg := cfg) (FetchJson (Some whitelist_new)) None refs0
         (Some (cache_at 10 {[ 7 := cached7 ]})) updated7)).
Proof.
  split; [vm_compute; reflexivity|].
  apply (grantListener_publishes (cfg := cfg) (FetchJson (Some whitelist_new)) None refs0
           (Some (cache_at 10 {[ 7 := cached7 ]})) updated7 {[ 7 := heard7 ]}).
  vm_compute. reflexivity.
Defined.

Lemma same_grants_singleton (k : Z) (g h : Grant) :
  same_grant g h -> same_grants {[ k := g ]} {[ k := h ]}.
Proof.
  intros Hgh k'. destruct (decide (k' = k)) as [->|Hne].
  - by rewrite !lookup_singleton_eq.
  - by rewrite !lookup_singleton_ne.
Qed.

Lemma grantListener_redelivery_witness :
  heard_result
    (grantListener (cfg := cfg) (FetchJson (Some whitelist_new)) None refs0
       (Some (cache_at 10 {[ 7 := cached7 ]})) updated7) = Ok {[ 7 := heard7 ]} /\
  heard_result
    (grantListener (cfg := cfg) (FetchThrows "Failed to fetch") (Some whitelist_new) refs0
       (Some (cache_at 11 {[ 7 := heard7_copy ]})) updated7_again) =
    Ok {[ 7 := heard7_again ]} /\
  same_grants {[ 7 := heard7 ]} {[ 7 := heard7_again ]}.
Proof.
  split; [vm_compute; reflexivity|].
  split; [vm_compute; reflexivity|].
  apply (grantListener_redelivery (cfg := cfg) (FetchJson (Some whitelist_new))
           (FetchThrows "Failed to fetch") None (Some whitelist_new) refs0 refs0
           (Some (cache_at 10 {[ 7 := cached7 ]})) (Some 11) updated7 updated7_again
           {[ 7 := heard7 ]} {[ 7 := heard7_copy ]} {[ 7 := heard7_again ]}).
  - vm_compute. reflexivity.
  - apply same_grants_singleton. by repeat split.
  - by repeat split.
  - vm_compute. reflexivity.
Defined.

(** C6 as stated fails: the fetch succeeds and delivers a whitelist that has
    no entry for chain 1.  With a grant to filter, getApprovedGrants does not
    filter: it stores the fetched whitelist over the cached one and throws a
    TypeError; and a later failed fetch, which finds that whitelist cached,
    throws it again instead of filtering by the cache. *)
Lemma getApprovedGrants_without_chain_entry_throws :
  getApprovedGrants (cfg := cfg) (FetchJson (Some whitelist_other_chain))
    (Some whitelist_new) [cached7; grant3] =
    (Some whitelist_other_chain,
     Revert "TypeError: Cannot read properties of undefined (reading 'includes')") /\
  getApprovedGrants (cfg := cfg) (FetchThrows "Failed to fetch")
    (Some whitelist_other_chain) [cached7; grant3] =
    (Some whitelist_other_chain,
     Revert "TypeError: Cannot read properties of undefined (reading 'includes')").
Proof. vm_compute. split; reflexivity. Qed.


End MoreExamples.
